(** * Sky view factor and wind downscaling rasters: a shallow embedding

    This development embeds the numerical core of the notebook
    [03_skyviewfactor_computation.ipynb] (mean squared slope, typical width of
    topographic features, sky view factor, elevation Laplacian, topographic
    downscaling factor, and the two drivers that apply them to every cell of
    the coarse HRDPS grid) and states the properties of the specification
    against it.

    Conventions of the embedding.
    - A numpy [float64] is a value of [fval]: a real number, or one of the
      three special values [+inf], [-inf], [nan].  Arithmetic on finite values
      is exact real arithmetic (no rounding, no overflow, one unsigned zero);
      arithmetic on special values follows IEEE 754 as numpy implements it:
      numpy emits a [RuntimeWarning] and returns [inf] or [nan], it never
      raises.
    - A 2-D numpy array is a list of rows, [list (list fval)], row major.
    - A Python call either returns or raises: [result A].
    - Geometry is outside the notebook's own code: a row of the coarse grid
      carries the pair [(row, col)] that [dem_raster.index] returns for its
      centroid. *)

From Stdlib Require Import Reals Lra Lia ZArith List Bool Arith.
From Stdlib Require Strings.String Strings.Ascii.
Import ListNotations.

Local Open Scope R_scope.

(** ** Floating point values *)

Module NP.

Inductive fval : Type :=
| Fin (r : R)
| PInf
| NInf
| NaN.

Definition fneg (x : fval) : fval :=
  match x with
  | Fin a => Fin (- a)
  | PInf => NInf
  | NInf => PInf
  | NaN => NaN
  end.

Definition fadd (x y : fval) : fval :=
  match x, y with
  | NaN, _ | _, NaN => NaN
  | Fin a, Fin b => Fin (a + b)
  | PInf, NInf | NInf, PInf => NaN
  | PInf, _ | _, PInf => PInf
  | NInf, _ | _, NInf => NInf
  end.

Definition fsub (x y : fval) : fval := fadd x (fneg y).

(** Sign of a real as a comparison: [Lt] negative, [Eq] zero, [Gt] positive. *)
Definition Rsign (a : R) : comparison :=
  if Rlt_dec a 0 then Lt else if Rlt_dec 0 a then Gt else Eq.

Definition fsign (x : fval) : option comparison :=
  match x with
  | Fin a => Some (Rsign a)
  | PInf => Some Gt
  | NInf => Some Lt
  | NaN => None
  end.

(** An infinity of the given sign; zero times infinity is [nan]. *)
Definition inf_of (s : comparison) : fval :=
  match s with Gt => PInf | Lt => NInf | Eq => NaN end.

Definition sign_mul (s t : comparison) : comparison :=
  match s, t with
  | Eq, _ | _, Eq => Eq
  | Gt, u => u
  | Lt, u => CompOpp u
  end.

Definition fmul (x y : fval) : fval :=
  match x, y with
  | Fin a, Fin b => Fin (a * b)
  | _, _ =>
      match fsign x, fsign y with
      | Some s, Some t => inf_of (sign_mul s t)
      | _, _ => NaN
      end
  end.

(** Division of float64 values in numpy: a zero divisor gives an infinity of
    the sign of the dividend, [0 / 0] and [inf / inf] give [nan]. *)
Definition fdiv (x y : fval) : fval :=
  match x, y with
  | NaN, _ | _, NaN => NaN
  | Fin a, Fin b =>
      match Rsign b with
      | Eq => inf_of (Rsign a)
      | _ => Fin (a / b)
      end
  | Fin _, _ => Fin 0
  | _, Fin b =>
      match fsign x with
      | Some s => inf_of (sign_mul s (match Rsign b with Eq => Gt | u => u end))
      | None => NaN
      end
  | _, _ => NaN
  end.

Definition fabs (x : fval) : fval :=
  match x with
  | Fin a => Fin (Rabs a)
  | PInf | NInf => PInf
  | NaN => NaN
  end.

Definition fsqrt (x : fval) : fval :=
  match x with
  | Fin a => if Rlt_dec a 0 then NaN else Fin (sqrt a)
  | PInf => PInf
  | NInf | NaN => NaN
  end.

Definition fexp (x : fval) : fval :=
  match x with
  | Fin a => Fin (exp a)
  | PInf => PInf
  | NInf => Fin 0
  | NaN => NaN
  end.

(** [y] is an integer, and then whether it is odd. *)
Definition is_int (y : R) : bool :=
  if Req_dec_T y (IZR (Int_part y)) then true else false.

Definition is_odd_int (y : R) : bool :=
  is_int y && Z.odd (Int_part y).

(** [x ** y] for a finite exponent [y], after C's [pow]: [x ** 0 = 1] for
    every [x]; a negative base has a real power only for an integer exponent;
    zero to a negative power is [inf]. *)
Definition fpow (x : fval) (y : R) : fval :=
  match Rsign y with
  | Eq => Fin 1
  | sy =>
      match x with
      | NaN => NaN
      | Fin a =>
          match Rsign a with
          | Gt => Fin (Rpower a y)
          | Eq => match sy with Gt => Fin 0 | _ => PInf end
          | Lt =>
              if is_int y
              then Fin ((if Z.odd (Int_part y) then -1 else 1) * Rpower (- a) y)
              else NaN
          end
      | PInf => match sy with Gt => PInf | _ => Fin 0 end
      | NInf =>
          match sy with
          | Gt => if is_odd_int y then NInf else PInf
          | _ => Fin 0
          end
      end
  end.

(** ** Two-dimensional arrays *)

Definition array : Type := list (list fval).

Definition nrows (A : array) : nat := length A.
Definition ncols (A : array) : nat := length (hd [] A).
Definition size (A : array) : nat := length (concat A).

Definition get (A : array) (i j : nat) : fval := nth j (nth i A []) NaN.

(** The array of shape [(n, m)] whose entry [(i, j)] is [f i j]. *)
Definition build (n m : nat) (f : nat -> nat -> fval) : array :=
  map (fun i => map (f i) (seq 0 m)) (seq 0 n).

Definition arr_map (f : fval -> fval) (A : array) : array :=
  map (map f) A.

(** Element-wise sum of two arrays of one shape. *)
Definition arr_add (A B : array) : array :=
  build (nrows A) (ncols A) (fun i j => fadd (get A i j) (get B i j)).

(** [np.ones(shape) * np.nan] *)
Definition nan_array (n m : nat) : array :=
  build n m (fun _ _ => fmul (Fin 1) NaN).

Definition fsum (l : list fval) : fval := fold_right fadd (Fin 0) l.

(** [np.mean]: the mean of an empty array is [0 / 0 = nan]. *)
Definition np_mean (A : array) : fval :=
  fdiv (fsum (concat A)) (Fin (INR (size A))).

(** [np.std]: population standard deviation. *)
Definition np_std (A : array) : fval :=
  let m := np_mean A in
  fsqrt (np_mean (arr_map (fun x => let d := fsub x m in fmul d d) A)).

(** *** Python slices

    [a[start:stop]] on a dimension of length [len]: a negative bound counts
    from the end, and both bounds are then clamped to [0..len]; an omitted
    bound is the corresponding end. An out of range slice never raises. *)

Definition norm_index (len : nat) (k : Z) : nat :=
  let k' := if (k <? 0)%Z then (k + Z.of_nat len)%Z else k in
  Z.to_nat (Z.min (Z.max k' 0) (Z.of_nat len)).

Definition slice : Type := (option Z * option Z)%type.

Definition bounds (len : nat) (s : slice) : nat * nat :=
  (match fst s with None => 0%nat | Some k => norm_index len k end,
   match snd s with None => len | Some k => norm_index len k end).

Definition in_bounds (b : nat * nat) (i : nat) : bool :=
  (fst b <=? i)%nat && (i <? snd b)%nat.

(** [A[rs, cs]] *)
Definition getitem2 (A : array) (rs cs : slice) : array :=
  let rb := bounds (nrows A) rs in
  let cb := bounds (ncols A) cs in
  build (snd rb - fst rb) (snd cb - fst cb)
        (fun i j => get A (fst rb + i) (fst cb + j)).

(** [A[rs, cs] = v] for a scalar [v] *)
Definition setitem2_scalar (A : array) (rs cs : slice) (v : fval) : array :=
  let rb := bounds (nrows A) rs in
  let cb := bounds (ncols A) cs in
  build (nrows A) (ncols A)
        (fun i j => if in_bounds rb i && in_bounds cb j then v else get A i j).

(** ** Python calls: return or raise *)

Inductive pyexn : Type := ValueError | TypeError.

Inductive result (A : Type) : Type :=
| Ret (a : A)
| Exc (e : pyexn).
Arguments Ret {A} a.
Arguments Exc {A} e.

Definition bind {A B : Type} (c : result A) (k : A -> result B) : result B :=
  match c with
  | Ret a => k a
  | Exc e => Exc e
  end.

Notation "x <- c ;; k" := (bind c (fun x => k))
  (at level 61, c at next level, right associativity).

(** [try: c except: h] with a bare [except]. *)
Definition try_except {A : Type} (c : result A) (h : result A) : result A :=
  match c with
  | Ret a => Ret a
  | Exc _ => h
  end.

(** [A[rs, cs] = V] for an array [V]: numpy broadcasts a dimension of [V] of
    length one, and raises [ValueError] when the shapes do not agree. *)
Definition broadcastable (v t : nat) : bool :=
  (v =? t)%nat || (v =? 1)%nat.

Definition setitem2 (A : array) (rs cs : slice) (V : array) : result array :=
  let rb := bounds (nrows A) rs in
  let cb := bounds (ncols A) cs in
  if broadcastable (nrows V) (snd rb - fst rb)
     && broadcastable (ncols V) (snd cb - fst cb)
  then Ret (build (nrows A) (ncols A)
              (fun i j =>
                 if in_bounds rb i && in_bounds cb j
                 then get V (if (nrows V =? 1)%nat then 0 else i - fst rb)
                            (if (ncols V =? 1)%nat then 0 else j - fst cb)
                 else get A i j))
  else Exc ValueError.

(** ** [scipy.signal.convolve2d]

    Linear convolution with zero fill outside the input:
    [full[i, j] = sum over (m, n) of K[m, n] * A[i - m, j - n]].
    Mode [same] is the part of [full] of the shape of [A], centred; mode
    [valid] is the part computed without fill. In mode [valid] the larger
    input plays the role of [A], and [ValueError] is raised when neither
    input is at least as large as the other in both dimensions. In mode
    [same] an input without elements gives an output without elements. *)

Definition getZ (A : array) (fill : fval) (i j : Z) : fval :=
  if ((0 <=? i) && (i <? Z.of_nat (nrows A)) &&
      (0 <=? j) && (j <? Z.of_nat (ncols A)))%Z
  then get A (Z.to_nat i) (Z.to_nat j)
  else fill.

Definition full_at (A K : array) (i j : Z) : fval :=
  fsum (flat_map
          (fun m => map (fun n => fmul (get K m n)
                                    (getZ A (Fin 0) (i - Z.of_nat m) (j - Z.of_nat n)))
                        (seq 0 (ncols K)))
          (seq 0 (nrows K))).

Inductive conv_mode : Type := Same | Valid.

Definition conv_same (A K : array) : array :=
  let r0 := Z.of_nat ((nrows K - 1) / 2) in
  let c0 := Z.of_nat ((ncols K - 1) / 2) in
  build (nrows A) (ncols A)
        (fun i j => full_at A K (Z.of_nat i + r0) (Z.of_nat j + c0)).

Definition conv_valid (A K : array) : array :=
  let r0 := Z.of_nat (nrows K - 1) in
  let c0 := Z.of_nat (ncols K - 1) in
  build (nrows A - nrows K + 1) (ncols A - ncols K + 1)
        (fun i j => full_at A K (Z.of_nat i + r0) (Z.of_nat j + c0)).

Definition convolve2d (A K : array) (mode : conv_mode) : result array :=
  match mode with
  | Same => Ret (conv_same A K)
  | Valid =>
      if (nrows K <=? nrows A)%nat && (ncols K <=? ncols A)%nat
      then Ret (conv_valid A K)
      else if (nrows A <=? nrows K)%nat && (ncols A <=? ncols K)%nat
           then Ret (conv_valid K A)
           else Exc ValueError
  end.

Fixpoint mapM {A B : Type} (f : A -> result B) (l : list A) : result (list B) :=
  match l with
  | [] => Ret []
  | a :: l' => b <- f a ;; bs <- mapM f l' ;; Ret (b :: bs)
  end.

(** [np.vectorize(f)(A, ...)]: [f] applied to every element; numpy refuses an
    input of size 0 with [ValueError] (the output type is found by calling
    [f] on the first element). *)
Definition np_vectorize (f : fval -> result fval) (A : array) : result array :=
  if (size A =? 0)%nat then Exc ValueError else mapM (mapM f) A.

Definition of_ints (k : list (list Z)) : array := map (map (fun z => Fin (IZR z))) k.

End NP.

Import NP.

(** ** The notebook *)

Definition kernel_1 : array :=
  of_ints [[0; 0; 0]; [0; 1; 0]; [0; -1; 0]]%Z.

Definition kernel_2 : array :=
  of_ints [[0; 0; 0]; [0; 1; -1]; [0; 0; 0]]%Z.

Definition np_square (A : array) : array := arr_map (fun x => fmul x x) A.

Definition compute_mean_squared_slope (input_array : array) (delta_x : fval)
  : result fval :=
  c1 <- convolve2d input_array kernel_1 Same ;;
  let member_1 := getitem2 c1 (Some 1%Z, None) (None, Some (-1)%Z) in
  c2 <- convolve2d input_array kernel_2 Same ;;
  let member_2 := getitem2 c2 (None, Some (-1)%Z) (Some 1%Z, None) in
  let mu := fdiv (fsqrt (np_mean (arr_add (np_square member_1) (np_square member_2))))
                 (fmul delta_x (fsqrt (Fin 2))) in
  Ret mu.

Definition compute_typical_width (mu elevation_standard_deviation : fval)
  : result fval :=
  let xi := fdiv (fmul elevation_standard_deviation (fsqrt (Fin 2))) mu in
  Ret xi.

(** Hard coded parameters of Helbig and Loewe (2014). *)
Definition a : R := 3.354688.
Definition b : R := 1.998767.
Definition c : R := 0.20286.
Definition d : R := 5.951.

Definition compute_sky_view_factor (mu xi L : fval) : result fval :=
  let F_sky :=
    fsub (Fin 1)
         (fmul (fsub (Fin 1)
                     (fdiv (Fin 1) (fpow (fadd (Fin 1) (fmul (Fin a) (fpow mu b))) c)))
               (fexp (fmul (fneg (Fin d)) (fpow (fdiv L xi) (-2))))) in
  Ret F_sky.

(** DEM cell resolution and HRDPS cell resolution, in meters. *)
Definition delta_x : fval := Fin 20.
Definition L : fval := Fin 2500.

(** A row of the coarse grid: its station, the DEM index of its centroid,
    and the columns the attribute pass adds. *)
Record row : Type := mkRow {
  Station : Z;
  array_coords : Z * Z;
  mu_col : option fval;
  xi_col : option fval;
  F_sky_col : option fval
}.

Definition set_params (r : row) (mu xi F_sky : fval) : row :=
  mkRow (Station r) (array_coords r) (Some mu) (Some xi) (Some F_sky).

Definition sky_view_factor_processing_wrapper (dem_array : array) (gdf_row : row)
  : result row :=
  try_except
    (let array_coords := array_coords gdf_row in
     let array_subset :=
       getitem2 dem_array
                (Some (fst array_coords - 12), Some (fst array_coords + 13))%Z
                (Some (snd array_coords - 12), Some (snd array_coords + 13))%Z in
     mu <- compute_mean_squared_slope array_subset delta_x ;;
     xi <- compute_typical_width mu (np_std dem_array) ;;
     F_sky <- compute_sky_view_factor mu xi L ;;
     Ret (set_params gdf_row mu xi F_sky))
    (Ret (set_params gdf_row NaN NaN NaN)).

(** [hrdps_cells.apply(lambda x : wrapper(dem, x), axis=1)] *)
Definition attribute_mode (dem_array : array) (hrdps_cells : list row)
  : result (list row) :=
  mapM (sky_view_factor_processing_wrapper dem_array) hrdps_cells.

Definition laplacian_kernel : array :=
  of_ints [[0; 1; 0]; [1; -4; 1]; [0; 1; 0]]%Z.

Definition compute_elevation_laplacien (input_array : array) (delta_x : fval)
  : result array :=
  cv <- convolve2d input_array laplacian_kernel Valid ;;
  let nabla_z_array := arr_map (fun x => fdiv x (fpow delta_x 2)) cv in
  let nabla_array_padded := nan_array (nrows input_array) (ncols input_array) in
  nabla_array_padded <-
    setitem2 nabla_array_padded (Some 1, Some (-1))%Z (Some 1, Some (-1))%Z
             nabla_z_array ;;
  Ret (arr_map (fun x => fdiv (fmul x delta_x) (Fin 4)) nabla_array_padded).

(** Constant parameters of Helbig et al. (2017). *)
Definition a_prime : R := 17.0393.
Definition b_prime : R := 0.737.
Definition c_prime : R := 1.0234.
Definition d_prime : R := 0.3794.
Definition e_prime : R := 1.9821.

Definition compute_downscaling_factor (elevation_laplacian mu : fval)
  : result fval :=
  let x_dsc_topo :=
    fdiv (fmul (fsub (Fin 1)
                     (fdiv (fmul (Fin a_prime) elevation_laplacian)
                           (fadd (Fin 1)
                                 (fmul (Fin a_prime)
                                       (fpow (fabs elevation_laplacian) b_prime)))))
               (Fin c_prime))
         (fadd (fadd (Fin 1) (Fin d_prime)) (fpow mu e_prime)) in
  Ret x_dsc_topo.

Definition compute_downscaling_factor_vectorized (A : array) (mu : fval)
  : result array :=
  np_vectorize (fun x => compute_downscaling_factor x mu) A.

Definition subset_array (full_array : array) (center_coordinates : Z * Z) : array :=
  getitem2 full_array
           (Some (fst center_coordinates - 62), Some (fst center_coordinates + 63))%Z
           (Some (snd center_coordinates - 62), Some (snd center_coordinates + 63))%Z.

(** What the names [F_array] and [X_array] are bound to: an array, or the
    integer the wrapper returns from its [except] branch. *)
Inductive pyval : Type :=
| PyArr (A : array)
| PyInt (z : Z).

(** [v[rs, cs] = x]: an [int] does not support item assignment. *)
Definition py_setitem2_scalar (v : pyval) (rs cs : slice) (x : fval) : result pyval :=
  match v with
  | PyArr A => Ret (PyArr (setitem2_scalar A rs cs x))
  | PyInt _ => Exc TypeError
  end.

Definition py_setitem2 (v : pyval) (rs cs : slice) (V : array) : result pyval :=
  match v with
  | PyArr A => A' <- setitem2 A rs cs V ;; Ret (PyArr A')
  | PyInt _ => Exc TypeError
  end.

Definition downscaling_parameters_processing_wrapper
    (gdf_row : row) (dem_array : array) (F_array X_array : pyval)
    (nabla_array : array) : result (pyval * pyval) :=
  let array_coords := array_coords gdf_row in
  let dem_array_subset := subset_array dem_array array_coords in
  let nabla_array_subset := subset_array nabla_array array_coords in
  mu <- compute_mean_squared_slope dem_array_subset delta_x ;;
  xi <- compute_typical_width mu (np_std dem_array) ;;
  try_except
    (F_sky <- compute_sky_view_factor mu xi L ;;
     X_dsc_topo_subarray <-
       compute_downscaling_factor_vectorized nabla_array_subset mu ;;
     F_array <-
       py_setitem2_scalar F_array
         (Some (fst array_coords - 62), Some (fst array_coords + 63))%Z
         (Some (snd array_coords - 62), Some (snd array_coords + 63))%Z
         F_sky ;;
     X_array <-
       py_setitem2 X_array
         (Some (fst array_coords - 62), Some (fst array_coords + 63))%Z
         (Some (snd array_coords - 62), Some (snd array_coords + 63))%Z
         X_dsc_topo_subarray ;;
     Ret (F_array, X_array))
    (Ret (PyInt (-999), PyInt (-999))).

(** The loop of the raster pass: the pair the wrapper returns is bound to
    [F_array, X_array] for the next iteration. *)
Fixpoint raster_loop (dem_array nabla_array : array) (hrdps_cells : list row)
    (F_array X_array : pyval) : result (pyval * pyval) :=
  match hrdps_cells with
  | [] => Ret (F_array, X_array)
  | c_row :: rest =>
      FX <- downscaling_parameters_processing_wrapper
              c_row dem_array F_array X_array nabla_array ;;
      raster_loop dem_array nabla_array rest (fst FX) (snd FX)
  end.

Definition raster_mode (dem_array : array) (hrdps_cells : list row)
  : result (pyval * pyval) :=
  let F_array := nan_array (nrows dem_array) (ncols dem_array) in
  let X_array := nan_array (nrows dem_array) (ncols dem_array) in
  nabla_array <- compute_elevation_laplacien dem_array delta_x ;;
  raster_loop dem_array nabla_array hrdps_cells (PyArr F_array) (PyArr X_array).

(** * Vocabulary of the statements

    Grids of finite elevations are lists of rows of reals; [lift] makes the
    float array of such a grid. The concrete grids and cells below are the
    inputs at which statements are evaluated. *)

Definition lift (w : list (list R)) : array := map (map Fin) w.

(** [w] has [n] rows of [m] entries each. *)
Definition rect {A : Type} (n m : nat) (w : list (list A)) : Prop :=
  length w = n /\ Forall (fun r => length r = m) w.

Definition rget (w : list (list R)) (i j : nat) : R := nth j (nth i w []) 0.

(** Entry [(i, j)] of [w], and zero outside of it. *)
Definition rgetZ (w : list (list R)) (i j : Z) : R :=
  if ((0 <=? i) && (i <? Z.of_nat (length w)) &&
      (0 <=? j) && (j <? Z.of_nat (length (hd [] w))))%Z
  then rget w (Z.to_nat i) (Z.to_nat j)
  else 0.

(** Sum of a list of reals. *)
Definition rsum (l : list R) : R := fold_right Rplus 0 l.

(** A window of constant elevation [z]. *)
Definition constant_window (z : R) (w : list (list R)) : Prop :=
  Forall (Forall (fun x => x = z)) w.

(** The window [elevation(i, j) = s * i], a constant slope along axis 0. *)
Definition ramp_window (s : R) (n m : nat) (w : list (list R)) : Prop :=
  forall i j, (i < n)%nat -> (j < m)%nat -> rget w i j = s * INR i.

(** The window [w] with [c] added to every elevation. *)
Definition offset_window (c : R) (w : list (list R)) : list (list R) :=
  map (map (fun x => x + c)) w.

(** Two 3 x 3 windows: a flat one, and the ramp of slope 20 along axis 0. *)
Definition flat3 : list (list R) := [[5; 5; 5]; [5; 5; 5]; [5; 5; 5]].
Definition ramp3 : list (list R) := [[0; 0; 0]; [20; 20; 20]; [40; 40; 40]].

(** [x ^ y] on the reals for a base [x >= 0] and an exponent [y > 0]:
    [0 ^ y = 0], and [exp (y * ln x)] for a positive base. *)
Definition real_pow (x y : R) : R :=
  if Req_dec_T x 0 then 0 else Rpower x y.

(** The sky view factor as the specification writes it. *)
Definition F_sky_formula (mu xi L : R) : R :=
  1 - (1 - Rpower (1 + a * real_pow mu b) (- c))
      * exp (- d * / ((L / xi) ^ 2)).

(** The downscaling factor as the specification writes it, with the sum
    [1 + d' + mu ^ e'] in the denominator. *)
Definition X_dsc_topo_formula (lap mu : R) : R :=
  (1 - a_prime * lap / (1 + a_prime * real_pow (Rabs lap) b_prime))
  * c_prime / (1 + d_prime + real_pow mu e_prime).

(** The 5-point stencil sum at an interior pixel: the four edge neighbours
    minus four times the centre. *)
Definition stencil (w : list (list R)) (i j : nat) : R :=
  rget w (i - 1) j + rget w (i + 1) j + rget w i (j - 1) + rget w i (j + 1)
  - 4 * rget w i j.

(** Pixel [(i, j)] lies on the one-pixel frame of an [n] x [m] array. *)
Definition on_border (n m i j : nat) : Prop :=
  i = 0%nat \/ i = (n - 1)%nat \/ j = 0%nat \/ j = (m - 1)%nat.

(** The values the notebook's functions return: none of them raises. *)
Definition mu_of (window : array) : fval :=
  match compute_mean_squared_slope window delta_x with
  | Ret v => v
  | Exc _ => NaN
  end.

Definition xi_of (dem_array window : array) : fval :=
  match compute_typical_width (mu_of window) (np_std dem_array) with
  | Ret v => v
  | Exc _ => NaN
  end.

Definition F_sky_of (dem_array window : array) : fval :=
  match compute_sky_view_factor (mu_of window) (xi_of dem_array window) L with
  | Ret v => v
  | Exc _ => NaN
  end.

Definition X_dsc_topo_of (mu lap : fval) : fval :=
  match compute_downscaling_factor lap mu with
  | Ret v => v
  | Exc _ => NaN
  end.

(** The slices [r - h : r + h + 1] and [c - h : c + h + 1] around a centre:
    [h = 12] in the attribute pass, [h = 62] in the raster pass. *)
Definition rows_around (h : Z) (center : Z * Z) : slice :=
  (Some (fst center - h), Some (fst center + (h + 1)))%Z.
Definition cols_around (h : Z) (center : Z * Z) : slice :=
  (Some (snd center - h), Some (snd center + (h + 1)))%Z.

Definition block_rows : Z * Z -> slice := rows_around 62.
Definition block_cols : Z * Z -> slice := cols_around 62.

(** Pixel [(i, j)] lies in the sub-block that the cell [c_row] writes in a
    raster of the shape of [dem_array]. *)
Definition covers (dem_array : array) (c_row : row) (i j : nat) : bool :=
  in_bounds (bounds (nrows dem_array) (block_rows (array_coords c_row))) i
  && in_bounds (bounds (ncols dem_array) (block_cols (array_coords c_row))) j.

(** The array [A] has shape [(n, m)]. *)
Definition shape (n m : nat) (A : array) : Prop :=
  nrows A = n /\ ncols A = m.

(** The values a cell writes at a pixel of its sub-block. *)
Definition written_by (dem nabla : array) (c_row : row) (i j : nat)
    (F X : array) : Prop :=
  get F i j = F_sky_of dem (subset_array dem (array_coords c_row)) /\
  get X i j = X_dsc_topo_of (mu_of (subset_array dem (array_coords c_row)))
                            (get nabla i j).

(** Mean and population variance of a grid of reals. *)
Definition rmean (w : list (list R)) : R :=
  rsum (concat w) / INR (length (concat w)).

Definition rvar (w : list (list R)) : R :=
  rmean (map (map (fun x => (x + - rmean w) * (x + - rmean w))) w).

(** The 3 x 3 ramp as an elevation grid. *)
Definition dem3 : array := lift ramp3.

(** A cell in the middle of the grid, and a cell whose centroid falls
    outside the grid. *)
Definition cell_in : row := mkRow 1 (1, 1)%Z None None None.
Definition cell_out : row := mkRow 2 (70, 1)%Z None None None.

(** The sub-block of the cell contains at least one pixel of the grid. *)
Definition nonempty_block (dem_array : array) (c_row : row) : bool :=
  let rb := bounds (nrows dem_array) (block_rows (array_coords c_row)) in
  let cb := bounds (ncols dem_array) (block_cols (array_coords c_row)) in
  (fst rb <? snd rb)%nat && (fst cb <? snd cb)%nat.

(** A second cell whose sub-block is the whole 3 x 3 grid. *)
Definition cell_corner : row := mkRow 3 (2, 2)%Z None None None.

(** The block of [dem_array] of rows [r - h .. min (r + h) (n - 1)] and
    columns [c - h .. min (c + h) (m - 1)]: the window of half-size [h]
    around [(r, c)], cut at the bottom and right edges of the grid. *)
Definition truncated_window (h : Z) (dem_array : array) (center : Z * Z) : array :=
  let r0 := Z.to_nat (fst center - h) in
  let c0 := Z.to_nat (snd center - h) in
  build (Nat.min (Z.to_nat (fst center + (h + 1))) (nrows dem_array) - r0)
        (Nat.min (Z.to_nat (snd center + (h + 1))) (ncols dem_array) - c0)
        (fun i j => get dem_array (r0 + i) (c0 + j)).

(** A 14 x 25 grid with the ramp [elevation(i, j) = 20 i], and a cell at row
    12 of its 14 rows: twelve rows below the top edge, one row above the
    last row. *)
Definition ramp_grid : list (list R) :=
  map (fun i => map (fun _ => 20 * INR i) (seq 0 25)) (seq 0 14).
Definition dem_edge : array := lift ramp_grid.
Definition cell_edge : row := mkRow 7 (12, 12)%Z None None None.

(** A 4 x 3 grid whose slope along axis 0 changes at row 2, and three cells:
    the sub-block of the first is the whole grid, that of the second rows
    0..2 (its centroid lies north of the grid), that of the third rows 2..3
    (its centroid lies south of the grid). *)
Definition kink4 : list (list R) :=
  [[0; 0; 0]; [20; 20; 20]; [40; 40; 40]; [140; 140; 140]].
Definition dem4 : array := lift kink4.
Definition cell_all : row := mkRow 1 (1, 1)%Z None None None.
Definition cell_north : row := mkRow 2 (-60, 1)%Z None None None.
Definition cell_south : row := mkRow 3 (64, 1)%Z None None None.

(** ** Vocabulary of the further properties *)

(** The grid of [n] rows and [m] columns whose entry [(i, j)] is [g i j]. *)
Definition table (n m : nat) (g : nat -> nat -> R) : list (list R) :=
  map (fun i => map (g i) (seq 0 m)) (seq 0 n).

(** The squared forward differences of [w] at [(i, j)], along both axes. *)
Definition sq_grad (w : list (list R)) (i j : nat) : R :=
  (rget w (i + 1) j - rget w i j) * (rget w (i + 1) j - rget w i j)
  + (rget w i (j + 1) - rget w i j) * (rget w i (j + 1) - rget w i j).

(** The window [w] with every elevation multiplied by [k]. *)
Definition scale_window (k : R) (w : list (list R)) : list (list R) :=
  map (map (fun x => k * x)) w.

(** The planar grid [elevation(i, j) = p i + q j + r0]. *)
Definition plane_window (p q r0 : R) (n m : nat) (w : list (list R)) : Prop :=
  forall i j, (i < n)%nat -> (j < m)%nat ->
    rget w i j = p * INR i + q * INR j + r0.

(** The block of [p] rows and [q] columns of [w] whose first entry is
    [(r0, c0)]. *)
Definition sub_grid (w : list (list R)) (r0 c0 p q : nat) : list (list R) :=
  table p q (fun i j => rget w (r0 + i) (c0 + j)).

(** Two grids agree everywhere but at the last entry of the last row. *)
Definition agree_off_corner (n m : nat) (w w' : list (list R)) : Prop :=
  forall i j, (i < n)%nat -> (j < m)%nat ->
    (i <> n - 1 \/ j <> m - 1)%nat -> rget w i j = rget w' i j.

(** The centroid index of the cell lies in an [n] x [m] grid. *)
Definition in_grid (n m : nat) (c_row : row) : Prop :=
  (0 <= fst (array_coords c_row) < Z.of_nat n)%Z /\
  (0 <= snd (array_coords c_row) < Z.of_nat m)%Z.

(** The centroid index of the cell is at least [h] cells from the top and
    left edges of the grid. *)
Definition clear_of_top_left (h : Z) (c_row : row) : Prop :=
  (h <= fst (array_coords c_row))%Z /\ (h <= snd (array_coords c_row))%Z.

(** A flat 125 x 125 grid, a cell in its middle and a cell near its top
    edge. *)
Definition flat125 : list (list R) := table 125 125 (fun _ _ => 0).
Definition cell_mid125 : row := mkRow 1 (62, 62)%Z None None None.
Definition cell_top125 : row := mkRow 2 (10, 62)%Z None None None.

(** [pandas.isna] on an attribute column: a missing value or [nan]; an
    infinity is not missing. *)
Definition isna (x : option fval) : bool :=
  match x with
  | None | Some NaN => true
  | Some _ => false
  end.

(** [hrdps_cells.dropna(inplace=True)]: the rows without a missing value,
    in order (the attribute columns are the only ones that can be missing
    here). *)
Definition dropna (rows : list row) : list row :=
  filter (fun r => negb (isna (mu_col r) || isna (xi_col r) || isna (F_sky_col r)))
         rows.

(** The table saved after the attribute pass: [apply], then [dropna]. *)
Definition attribute_table (dem_array : array) (hrdps_cells : list row)
  : result (list row) :=
  rows <- attribute_mode dem_array hrdps_cells ;;
  Ret (dropna rows).

(** A 25 x 25 ramp grid and the cell in its middle. *)
Definition ramp25 : list (list R) := table 25 25 (fun i _ => 20 * INR i).
Definition cell_mid25 : row := mkRow 1 (12, 12)%Z None None None.

(** A 25 x 26 grid, flat but for its last column, and the cell whose window
    is the flat part. *)
Definition step26 : list (list R) :=
  table 25 26 (fun _ j => if (j =? 25)%nat then 100 else 0).

(** The grid [w'] is [w] plus the plane [p i + q j + r0]. *)
Definition tilted (p q r0 : R) (n m : nat) (w w' : list (list R)) : Prop :=
  forall i j, (i < n)%nat -> (j < m)%nat ->
    rget w' i j = rget w i j + (p * INR i + q * INR j + r0).

(** A 3 x 3 plane: 20 per row, 2 per column, from 7. *)
Definition ramp3_tilted : list (list R) :=
  [[7; 9; 11]; [27; 29; 31]; [47; 49; 51]].

(** * The header of a SMET file ([02_raw_hrdps_prep.ipynb])

    [format_header] rewrites the lines of the header of a raw SMET file. The
    lines are strings; the two steps that reach outside the function are
    inputs of the model: [station], what [int(file_name.split('.')[0][4:])]
    returns or raises for the path, and [centroid], what the four look-ups of
    the station in the centroid tables return or raise (the strings of the
    rounded latitude, longitude, easting and northing). *)

Module Smet.

Import Stdlib.Strings.String Stdlib.Strings.Ascii.
Local Open Scope string_scope.

Inductive exn : Type := IndexError | ValueError | KeyError.

Inductive outcome (A : Type) : Type :=
| Ok (a : A)
| Raise (e : exn).
Arguments Ok {A} a.
Arguments Raise {A} e.

Definition obind {A B : Type} (c : outcome A) (k : A -> outcome B) : outcome B :=
  match c with
  | Ok a => k a
  | Raise e => Raise e
  end.

Notation "x <-- c ;; k" := (obind c (fun x => k))
  (at level 61, c at next level, right associativity).

(** [l[i]]: a negative index counts from the end; out of range raises
    [IndexError]. *)
Definition getitem {A : Type} (l : list A) (i : Z) : outcome A :=
  let k := if (i <? 0)%Z then (i + Z.of_nat (List.length l))%Z else i in
  if (k <? 0)%Z then Raise IndexError
  else match nth_error l (Z.to_nat k) with
       | Some a => Ok a
       | None => Raise IndexError
       end.

Fixpoint set_nth {A : Type} (l : list A) (k : nat) (v : A) : list A :=
  match l, k with
  | [], _ => []
  | _ :: l', O => v :: l'
  | a :: l', S k' => a :: set_nth l' k' v
  end.

(** [l[i] = v] *)
Definition setitem {A : Type} (l : list A) (i : Z) (v : A) : outcome (list A) :=
  let k := if (i <? 0)%Z then (i + Z.of_nat (List.length l))%Z else i in
  if ((k <? 0) || (Z.of_nat (List.length l) <=? k))%Z then Raise IndexError
  else Ok (set_nth l (Z.to_nat k) v).

(** [l.insert(i, x)]: the index is clamped like a slice bound; it never
    raises. *)
Definition insert {A : Type} (l : list A) (i : Z) (x : A) : list A :=
  let k := norm_index (List.length l) i in
  (firstn k l ++ x :: skipn k l)%list.

(** [l[start:stop]] *)
Definition slice1 {A : Type} (l : list A) (s : slice) : list A :=
  let b := bounds (List.length l) s in
  firstn (snd b - fst b) (skipn (fst b) l).

(** [s.replace(old, new)]: every occurrence of [old], scanning from the left
    without overlap; an empty [old] matches before every character and at
    the end. *)
Fixpoint replace_from (old new : string) (skip : nat) (s : string) : string :=
  match s with
  | EmptyString => EmptyString
  | String ch s' =>
      match skip with
      | S k => replace_from old new k s'
      | O =>
          if prefix old s
          then new ++ replace_from old new (length old - 1) s'
          else String ch (replace_from old new 0 s')
      end
  end.

Fixpoint intersperse (new s : string) : string :=
  match s with
  | EmptyString => new
  | String ch s' => new ++ String ch (intersperse new s')
  end.

Definition replace (old new s : string) : string :=
  match old with
  | EmptyString => intersperse new s
  | _ => replace_from old new 0 s
  end.

(** [s.split(sep)[0]] for a separator of one character: the part of [s]
    before its first occurrence, the whole of [s] when there is none. *)
Fixpoint before_first (sep : ascii) (s : string) : string :=
  match s with
  | EmptyString => EmptyString
  | String ch s' =>
      if Ascii.eqb ch sep then EmptyString else String ch (before_first sep s')
  end.

(** [sep.join(l)] *)
Fixpoint join (sep : string) (l : list string) : string :=
  match l with
  | [] => EmptyString
  | [x] => x
  | x :: l' => x ++ sep ++ join sep l'
  end.

(** [old in s] *)
Fixpoint occurs (old s : string) : bool :=
  prefix old s
  || match s with
     | EmptyString => false
     | String _ s' => occurs old s'
     end.

Definition tab : string := String "009"%char EmptyString.
Definition newline : string := String "010"%char EmptyString.

Definition epsg_line : string := "epsg              = 32611" ++ newline.

Definition format_header (data : list string) (station : outcome Z)
    (centroid : Z -> outcome (string * string * string * string))
    (columns : list string) : outcome (list string) :=
  station <-- station ;;
  lat_line <-- getitem data 4 ;;
  lon_line <-- getitem data 5 ;;
  let x_line := lat_line in
  let y_line := lat_line in
  cs <-- centroid station ;;
  let '(lat, lon, x, y) := cs in
  d4 <-- getitem data 4 ;;
  data <-- setitem data 4 (replace "-999.000000" lat d4) ;;
  d5 <-- getitem data 5 ;;
  data <-- setitem data 5 (replace "-999.000000" lon d5) ;;
  let x_line := replace "latitude" "easting" x_line in
  let x_line := replace "-999.000000" x x_line in
  let data := insert data 7 x_line in
  let y_line := replace "latitude" "northing" y_line in
  let y_line := replace "-999.000000" y y_line in
  let data := insert data 8 y_line in
  let data := insert data 9 epsg_line in
  let header :=
    (slice1 data (None, Some 12%Z) ++ slice1 data (Some 19%Z, Some 21%Z))%list in
  h12 <-- getitem header 12 ;;
  header <-- setitem header 12
    (before_first "="%char h12 ++ "= timestamp" ++ tab ++ join tab columns
     ++ newline) ;;
  Ok header.

End Smet.

(** * Facts about arrays *)

Section ArrayFacts.

Lemma nrows_build n m f : nrows (build n m f) = n.
Proof. unfold nrows, build. now rewrite length_map, length_seq. Qed.

Lemma ncols_build n m f : (0 < n)%nat -> ncols (build n m f) = m.
Proof.
  intros Hn. unfold ncols, build. destruct n as [|n]; [lia|].
  cbn. now rewrite length_map, length_seq.
Qed.

Lemma get_build n m f i j :
  (i < n)%nat -> (j < m)%nat -> get (build n m f) i j = f i j.
Proof.
  intros Hi Hj. unfold get, build.
  rewrite (nth_indep _ [] (map (f 0%nat) (seq 0 m)))
    by now rewrite length_map, length_seq.
  rewrite (map_nth (fun i => map (f i) (seq 0 m)) (seq 0 n) 0%nat i).
  rewrite seq_nth by assumption. cbn.
  rewrite (nth_indep _ NaN (f i 0%nat)) by now rewrite length_map, length_seq.
  rewrite (map_nth (f i) (seq 0 m) 0%nat j).
  now rewrite seq_nth.
Qed.

Lemma build_ext n m f g :
  (forall i j, (i < n)%nat -> (j < m)%nat -> f i j = g i j) ->
  build n m f = build n m g.
Proof.
  intros H. unfold build. apply map_ext_in. intros i Hi.
  apply map_ext_in. intros j Hj. apply in_seq in Hi, Hj. apply H; lia.
Qed.

Lemma arr_map_build h n m f :
  arr_map h (build n m f) = build n m (fun i j => h (f i j)).
Proof.
  unfold arr_map, build. rewrite map_map. apply map_ext. intros i.
  now rewrite map_map.
Qed.

Lemma size_build n m f : size (build n m f) = (n * m)%nat.
Proof.
  unfold size, build.
  assert (H : forall l' : list nat,
             length (concat (map (fun i => map (f i) (seq 0 m)) l'))
             = (length l' * m)%nat).
  { induction l' as [|x l' IH]; cbn; [reflexivity|].
    now rewrite length_app, length_map, length_seq, IH. }
  now rewrite H, length_seq.
Qed.

End ArrayFacts.

(** * Windows of real elevations

    The claims about elevation windows quantify over rectangular arrays of
    finite values: [lift w] is the float array of the reals [w]. *)

Section WindowFacts.

Lemma rect_row {A : Type} n m (w : list (list A)) i d :
  rect n m w -> (i < n)%nat -> length (nth i w d) = m.
Proof.
  intros [Hn Hall] Hi. rewrite Forall_forall in Hall.
  apply Hall, nth_In. lia.
Qed.

Lemma rect_hd {A : Type} n m (w : list (list A)) :
  rect n m w -> (0 < n)%nat -> length (hd [] w) = m.
Proof.
  intros H Hn. destruct w as [|r w]; [destruct H; cbn in *; lia|].
  cbn. exact (rect_row n m (r :: w) 0 [] H Hn).
Qed.

Lemma rect_lift n m w : rect n m w -> rect n m (lift w).
Proof.
  intros [Hn Hall]. split; unfold lift.
  - now rewrite length_map.
  - apply Forall_map. eapply Forall_impl; [|exact Hall].
    intros r Hr. cbn. now rewrite length_map.
Qed.

Lemma rect_build n m f : rect n m (build n m f).
Proof.
  split; [apply nrows_build|].
  unfold build. apply Forall_map, Forall_forall. intros i _.
  now rewrite length_map, length_seq.
Qed.

Lemma nrows_rect n m (A : array) : rect n m A -> nrows A = n.
Proof. now intros [H _]. Qed.

Lemma ncols_rect n m (A : array) : rect n m A -> (0 < n)%nat -> ncols A = m.
Proof. intros H Hn. unfold ncols. now apply (rect_hd n m). Qed.

Lemma get_lift n m w i j :
  rect n m w -> (i < n)%nat -> (j < m)%nat ->
  get (lift w) i j = Fin (rget w i j).
Proof.
  intros H Hi Hj. unfold get, rget, lift.
  pose proof (rect_row n m w i [] H Hi) as Hlen.
  rewrite (nth_indep _ [] (map Fin [])) by (rewrite length_map; destruct H; lia).
  rewrite (map_nth (map Fin) w [] i).
  rewrite (nth_indep _ NaN (Fin 0)) by (rewrite length_map; lia).
  now rewrite (map_nth Fin (nth i w []) 0 j).
Qed.

(** Reading a lifted window with zero fill always gives a finite value. *)
Lemma getZ_lift n m w i j :
  rect n m w -> getZ (lift w) (Fin 0) i j = Fin (rgetZ w i j).
Proof.
  intros H. unfold getZ, rgetZ.
  assert (Hr : nrows (lift w) = length w) by (unfold nrows, lift; apply length_map).
  assert (Hc : ncols (lift w) = length (hd [] w)).
  { unfold ncols, lift. destruct w; cbn; [reflexivity|apply length_map]. }
  rewrite Hr, Hc.
  destruct ((0 <=? i) && (i <? Z.of_nat (length w)) &&
            (0 <=? j) && (j <? Z.of_nat (length (hd [] w))))%Z eqn:E;
    [|reflexivity].
  repeat (apply andb_prop in E; destruct E as [E ?]).
  assert (Hn : length w = n) by (now destruct H).
  assert (Hm : length (hd [] w) = m) by (apply (rect_hd n m w H); lia).
  apply (get_lift n m); [assumption|lia|lia].
Qed.

Lemma rgetZ_in n m w i j :
  rect n m w -> (i < n)%nat -> (j < m)%nat ->
  rgetZ w (Z.of_nat i) (Z.of_nat j) = rget w i j.
Proof.
  intros H Hi Hj. unfold rgetZ.
  assert (Hn : length w = n) by (now destruct H).
  assert (Hm : length (hd [] w) = m) by (apply (rect_hd n m w H); lia).
  rewrite Hn, Hm, !Nat2Z.id.
  replace ((0 <=? Z.of_nat i) && (Z.of_nat i <? Z.of_nat n) &&
           (0 <=? Z.of_nat j) && (Z.of_nat j <? Z.of_nat m))%Z with true;
    [reflexivity|].
  symmetry. rewrite !andb_true_iff. repeat split; lia.
Qed.

(** The full convolution of a lifted window with a 3 x 3 integer kernel. *)
Lemma full_at_3x3 n m w k00 k01 k02 k10 k11 k12 k20 k21 k22 i j :
  rect n m w ->
  full_at (lift w)
          (of_ints [[k00; k01; k02]; [k10; k11; k12]; [k20; k21; k22]]) i j
  = Fin (IZR k00 * rgetZ w i j + IZR k01 * rgetZ w i (j - 1)
         + IZR k02 * rgetZ w i (j - 2)
         + IZR k10 * rgetZ w (i - 1) j + IZR k11 * rgetZ w (i - 1) (j - 1)
         + IZR k12 * rgetZ w (i - 1) (j - 2)
         + IZR k20 * rgetZ w (i - 2) j + IZR k21 * rgetZ w (i - 2) (j - 1)
         + IZR k22 * rgetZ w (i - 2) (j - 2)).
Proof.
  intros H. unfold full_at, of_ints, nrows, ncols, get.
  cbn [map length hd seq flat_map app nth Z.of_nat Pos.of_succ_nat Pos.succ].
  rewrite !(getZ_lift n m w _ _ H).
  cbn [fsum fold_right fmul fadd]. rewrite !Z.sub_0_r. f_equal. ring.
Qed.

End WindowFacts.

(** * Facts about float operations on finite values *)

Section FloatFacts.

Lemma Rsign_pos x : 0 < x -> Rsign x = Gt.
Proof.
  intros H. unfold Rsign.
  destruct (Rlt_dec x 0); [lra|]. destruct (Rlt_dec 0 x); [reflexivity|lra].
Qed.

Lemma Rsign_neg x : x < 0 -> Rsign x = Lt.
Proof. intros H. unfold Rsign. destruct (Rlt_dec x 0); [reflexivity|lra]. Qed.

Lemma Rsign_zero : Rsign 0 = Eq.
Proof.
  unfold Rsign. destruct (Rlt_dec 0 0); [lra|]. destruct (Rlt_dec 0 0); [lra|].
  reflexivity.
Qed.

Lemma fdiv_pos x y : 0 < y -> fdiv (Fin x) (Fin y) = Fin (x / y).
Proof. intros H. cbn. now rewrite Rsign_pos. Qed.

Lemma fdiv_pos_zero x : 0 < x -> fdiv (Fin x) (Fin 0) = PInf.
Proof. intros H. cbn. now rewrite Rsign_zero, Rsign_pos. Qed.

Lemma fdiv_zero_zero : fdiv (Fin 0) (Fin 0) = NaN.
Proof. cbn. now rewrite Rsign_zero. Qed.

Lemma fsqrt_nonneg x : 0 <= x -> fsqrt (Fin x) = Fin (sqrt x).
Proof. intros H. cbn. destruct (Rlt_dec x 0); [lra|reflexivity]. Qed.

Lemma fpow_pos x y : 0 < x -> y <> 0 -> fpow (Fin x) y = Fin (Rpower x y).
Proof.
  intros Hx Hy. unfold fpow.
  destruct (Rsign y) eqn:E.
  - exfalso. unfold Rsign in E.
    destruct (Rlt_dec y 0); [discriminate|].
    destruct (Rlt_dec 0 y); [discriminate|]. lra.
  - now rewrite Rsign_pos.
  - now rewrite Rsign_pos.
Qed.

Lemma fpow_zero y : 0 < y -> fpow (Fin 0) y = Fin 0.
Proof. intros Hy. unfold fpow. now rewrite (Rsign_pos y Hy), Rsign_zero. Qed.

Lemma sqrt2_pos : 0 < sqrt 2.
Proof. apply sqrt_lt_R0. lra. Qed.

Lemma Rpower_2 x : 0 < x -> Rpower x 2 = x * x.
Proof.
  intros H. replace 2 with (1 + 1) by lra.
  now rewrite Rpower_plus, Rpower_1.
Qed.

Lemma Rpower_m2 x : 0 < x -> Rpower x (-2) = / (x * x).
Proof.
  intros H. replace (-2) with (Ropp 2) by lra.
  now rewrite Rpower_Ropp, Rpower_2.
Qed.

End FloatFacts.

(** * The mean squared slope of a window of finite elevations *)

Section Slope.

Lemma norm_index_Z len k :
  Z.of_nat (norm_index len k)
  = Z.min (Z.max (if (k <? 0)%Z then (k + Z.of_nat len)%Z else k) 0) (Z.of_nat len).
Proof. unfold norm_index. destruct (k <? 0)%Z; rewrite Z2Nat.id; lia. Qed.

Lemma norm_index_pos len k :
  (0 <= k)%Z -> norm_index len k = Nat.min (Z.to_nat k) len.
Proof.
  intros H. apply Nat2Z.inj. rewrite norm_index_Z.
  destruct (Z.ltb_spec k 0); lia.
Qed.

Lemma norm_index_m1 len : norm_index len (-1) = (len - 1)%nat.
Proof.
  apply Nat2Z.inj. rewrite norm_index_Z.
  change (-1 <? 0)%Z with true. cbv iota. lia.
Qed.

(** [member_1]: the difference along axis 0, on the window less its last row
    and last column. *)
Lemma member_1_lift n m w :
  rect n m w -> (1 <= n)%nat ->
  getitem2 (conv_same (lift w) kernel_1) (Some 1%Z, None) (None, Some (-1)%Z)
  = build (n - 1) (m - 1)
          (fun i j => Fin (rget w (i + 1) j - rget w i j)).
Proof.
  intros H Hn.
  pose proof (rect_lift n m w H) as HL.
  unfold conv_same.
  rewrite (nrows_rect n m _ HL), (ncols_rect n m _ HL) by lia.
  unfold getitem2. rewrite nrows_build, ncols_build by lia.
  unfold bounds. cbn [fst snd].
  rewrite norm_index_pos, norm_index_m1 by lia.
  change (Z.to_nat 1) with 1%nat.
  replace (Nat.min 1 n) with 1%nat by lia.
  rewrite Nat.sub_0_r. apply build_ext. intros i j Hi Hj.
  rewrite get_build by lia.
  change (nrows kernel_1) with 3%nat. change (ncols kernel_1) with 3%nat.
  change ((3 - 1) / 2)%nat with 1%nat. unfold kernel_1.
  rewrite (full_at_3x3 n m w _ _ _ _ _ _ _ _ _ _ _ H).
  f_equal.
  replace (Z.of_nat (1 + i) + Z.of_nat 1 - 1)%Z
    with (Z.of_nat (i + 1)) by lia.
  replace (Z.of_nat (0 + j) + Z.of_nat 1 - 1)%Z
    with (Z.of_nat j) by lia.
  replace (Z.of_nat (1 + i) + Z.of_nat 1 - 2)%Z
    with (Z.of_nat i) by lia.
  rewrite !(rgetZ_in n m w) by (assumption || lia).
  ring.
Qed.

(** [member_2]: the difference along axis 1, on the same sub-grid. *)
Lemma member_2_lift n m w :
  rect n m w -> (1 <= n)%nat ->
  getitem2 (conv_same (lift w) kernel_2) (None, Some (-1)%Z) (Some 1%Z, None)
  = build (n - 1) (m - 1)
          (fun i j => Fin (rget w i (j + 1) - rget w i j)).
Proof.
  intros H Hn.
  pose proof (rect_lift n m w H) as HL.
  unfold conv_same.
  rewrite (nrows_rect n m _ HL), (ncols_rect n m _ HL) by lia.
  unfold getitem2. rewrite nrows_build, ncols_build by lia.
  unfold bounds. cbn [fst snd].
  rewrite norm_index_m1, norm_index_pos by lia.
  change (Z.to_nat 1) with 1%nat.
  rewrite Nat.sub_0_r.
  replace (m - Nat.min 1 m)%nat with (m - 1)%nat by lia.
  apply build_ext. intros i j Hi Hj.
  rewrite get_build by lia.
  change (nrows kernel_2) with 3%nat. change (ncols kernel_2) with 3%nat.
  change ((3 - 1) / 2)%nat with 1%nat. unfold kernel_2.
  rewrite (full_at_3x3 n m w _ _ _ _ _ _ _ _ _ _ _ H).
  f_equal.
  replace (Z.of_nat (0 + i) + Z.of_nat 1 - 1)%Z
    with (Z.of_nat i) by lia.
  replace (Z.of_nat (Nat.min 1 m + j) + Z.of_nat 1 - 1)%Z
    with (Z.of_nat (j + 1)) by lia.
  replace (Z.of_nat (Nat.min 1 m + j) + Z.of_nat 1 - 2)%Z
    with (Z.of_nat j) by lia.
  rewrite !(rgetZ_in n m w) by (assumption || lia).
  ring.
Qed.

Lemma fsum_const_build n m k :
  fsum (concat (build n m (fun _ _ => Fin k))) = Fin (INR (n * m) * k).
Proof.
  unfold build, fsum.
  assert (Hrow : forall (l : list nat) acc,
             fold_right fadd (Fin acc) (map (fun _ => Fin k) l)
             = Fin (INR (length l) * k + acc)).
  { induction l as [|x l IH]; intros acc.
    - cbn. f_equal. lra.
    - cbn [map fold_right length]. rewrite IH, S_INR. cbn. f_equal. lra. }
  assert (Hall : forall l : list nat,
             fold_right fadd (Fin 0)
               (concat (map (fun _ : nat => map (fun _ => Fin k) (seq 0 m)) l))
             = Fin (INR (length l * m) * k)).
  { induction l as [|x l IH].
    - cbn. f_equal. lra.
    - cbn [map concat length]. rewrite fold_right_app, IH, Hrow, length_seq.
      f_equal. cbn [Nat.mul]. rewrite plus_INR. lra. }
  now rewrite Hall, length_seq.
Qed.

Lemma np_mean_const n m k :
  (0 < n)%nat -> (0 < m)%nat -> np_mean (build n m (fun _ _ => Fin k)) = Fin k.
Proof.
  intros Hn Hm. unfold np_mean. rewrite fsum_const_build, size_build.
  assert (0 < INR (n * m)) by (apply lt_0_INR; nia).
  rewrite fdiv_pos by assumption. f_equal. field. lra.
Qed.

(** The mean squared slope of a window whose squared gradient is the same
    [k] at every retained position. *)
Lemma mean_squared_slope_uniform n m w dx k :
  rect n m w -> (2 <= n)%nat -> (2 <= m)%nat -> 0 < dx ->
  (forall i j, (i < n - 1)%nat -> (j < m - 1)%nat ->
     (rget w (i + 1) j - rget w i j) * (rget w (i + 1) j - rget w i j)
     + (rget w i (j + 1) - rget w i j) * (rget w i (j + 1) - rget w i j) = k) ->
  compute_mean_squared_slope (lift w) (Fin dx)
  = Ret (Fin (sqrt k / (dx * sqrt 2))).
Proof.
  intros H Hn Hm Hdx Hk.
  assert (Hk0 : 0 <= k).
  { assert (Hsq : forall x y : R, 0 <= x * x + y * y) by (intros; nra).
    rewrite <- (Hk 0%nat 0%nat) by lia. apply Hsq. }
  unfold compute_mean_squared_slope. cbn [convolve2d bind].
  rewrite (member_1_lift n m w H), (member_2_lift n m w H) by lia.
  unfold np_square. rewrite !arr_map_build.
  unfold arr_add. rewrite nrows_build, ncols_build by lia.
  rewrite (build_ext _ _ _ (fun _ _ => Fin k)).
  2:{ intros i j Hi Hj. rewrite !get_build by assumption.
      cbn [fmul fadd]. f_equal. now apply Hk. }
  rewrite np_mean_const by lia.
  rewrite fsqrt_nonneg by assumption.
  rewrite (fsqrt_nonneg 2) by lra. cbn [fmul].
  pose proof sqrt2_pos.
  rewrite fdiv_pos by nra. reflexivity.
Qed.

End Slope.

(** * Properties of the mean squared slope and the typical width *)

Lemma constant_window_rget n m z w i j :
  rect n m w -> constant_window z w -> (i < n)%nat -> (j < m)%nat ->
  rget w i j = z.
Proof.
  intros H Hc Hi Hj. unfold rget, constant_window in *.
  pose proof (rect_row n m w i [] H Hi) as Hlen.
  rewrite Forall_forall in Hc.
  assert (Hin : In (nth i w []) w) by (apply nth_In; destruct H; lia).
  specialize (Hc _ Hin). rewrite Forall_forall in Hc.
  apply Hc, nth_In. lia.
Qed.

Lemma rect_3x3 (x0 x1 x2 y0 y1 y2 z0 z1 z2 : R) :
  rect 3 3 [[x0; x1; x2]; [y0; y1; y2]; [z0; z1; z2]].
Proof. split; [reflexivity|]. repeat constructor. Qed.

(** C2 (as the code behaves): on a window of constant elevation, at least
    2 x 2, and for every positive cell size, [compute_mean_squared_slope]
    returns exactly 0; [compute_typical_width] applied to that zero slope
    raises nothing: it returns [+inf] for a positive elevation standard
    deviation and [nan] for a zero one. *)
Theorem flat_window_zero_slope_inf_width n m z w dx sd :
  rect n m w -> (2 <= n)%nat -> (2 <= m)%nat -> constant_window z w ->
  0 < dx -> 0 <= sd ->
  compute_mean_squared_slope (lift w) (Fin dx) = Ret (Fin 0) /\
  compute_typical_width (Fin 0) (Fin sd)
  = Ret (if Req_dec_T sd 0 then NaN else PInf).
Proof.
  intros H Hn Hm Hc Hdx Hsd. split.
  - rewrite (mean_squared_slope_uniform n m w dx 0 H Hn Hm Hdx).
    + rewrite sqrt_0. do 2 f_equal. unfold Rdiv. ring.
    + intros i j Hi Hj.
      rewrite !(constant_window_rget n m z w _ _ H Hc) by lia. ring.
  - unfold compute_typical_width. rewrite (fsqrt_nonneg 2) by lra. cbn [fmul].
    pose proof sqrt2_pos. destruct (Req_dec_T sd 0) as [->|Hne].
    + rewrite Rmult_0_l. now rewrite fdiv_zero_zero.
    + rewrite fdiv_pos_zero by nra. reflexivity.
Qed.

Lemma flat_window_zero_slope_inf_width_witness :
  compute_mean_squared_slope (lift flat3) (Fin 20) = Ret (Fin 0) /\
  compute_typical_width (Fin 0) (Fin 1)
  = Ret (if Req_dec_T 1 0 then NaN else PInf).
Proof.
  apply (flat_window_zero_slope_inf_width 3 3 5 flat3 20 1).
  - apply rect_3x3.
  - lia.
  - lia.
  - repeat constructor.
  - lra.
  - lra.
Defined.

(** C2 (as stated) fails: for the zero slope of a flat window and the
    standard deviation 1, [compute_typical_width] returns the infinite value
    [+inf]; it raises no error. *)
Lemma typical_width_of_zero_slope_returns_inf :
  compute_typical_width (Fin 0) (Fin 1) = Ret PInf /\
  ~ (exists e, compute_typical_width (Fin 0) (Fin 1) = Exc e).
Proof.
  assert (E : compute_typical_width (Fin 0) (Fin 1) = Ret PInf).
  { unfold compute_typical_width. rewrite (fsqrt_nonneg 2) by lra. cbn [fmul].
    pose proof sqrt2_pos. now rewrite fdiv_pos_zero by lra. }
  split; [exact E|]. intros [e He]. rewrite E in He. discriminate.
Qed.

Lemma mean_squared_slope_ramp n m s w dx :
  rect n m w -> (2 <= n)%nat -> (2 <= m)%nat -> ramp_window s n m w ->
  0 < dx ->
  compute_mean_squared_slope (lift w) (Fin dx)
  = Ret (Fin (Rabs s / (dx * sqrt 2))).
Proof.
  intros H Hn Hm Hr Hdx.
  rewrite (mean_squared_slope_uniform n m w dx (s * s) H Hn Hm Hdx).
  - change (s * s) with (Rsqr s). now rewrite sqrt_Rsqr_abs.
  - intros i j Hi Hj. rewrite !Hr by lia. rewrite plus_INR. cbn [INR]. ring.
Qed.

(** C8 (as the code behaves): on a window of at least 2 x 2 whose elevation
    is the ramp [elevation(i, j) = s * i], [compute_mean_squared_slope]
    returns [|s| / (delta_x * sqrt 2)], whatever the size of the window. *)
Theorem ramp_window_slope n m s w dx :
  rect n m w -> (2 <= n)%nat -> (2 <= m)%nat -> ramp_window s n m w ->
  0 < dx ->
  compute_mean_squared_slope (lift w) (Fin dx)
  = Ret (Fin (Rabs s / (dx * sqrt 2))).
Proof. exact (mean_squared_slope_ramp n m s w dx). Qed.

Lemma ramp3_is_ramp : ramp_window 20 3 3 ramp3.
Proof.
  intros i j Hi Hj. unfold ramp3, rget.
  destruct i as [|[|[|i]]]; [| | |lia];
    (destruct j as [|[|[|j]]]; [| | |lia]); cbn; lra.
Qed.

Lemma ramp3_slope :
  compute_mean_squared_slope (lift ramp3) (Fin 20) = Ret (Fin (/ sqrt 2)).
Proof.
  pose proof sqrt2_pos as Hs.
  rewrite (mean_squared_slope_ramp 3 3 20 ramp3 20 (rect_3x3 _ _ _ _ _ _ _ _ _));
    [|lia|lia|exact ramp3_is_ramp|lra].
  rewrite Rabs_pos_eq by lra. do 2 f_equal. field. lra.
Qed.

Lemma ramp_window_slope_witness :
  compute_mean_squared_slope (lift ramp3) (Fin 20)
  = Ret (Fin (Rabs 20 / (20 * sqrt 2))).
Proof.
  apply (ramp_window_slope 3 3 20 ramp3 20).
  - apply rect_3x3.
  - lia.
  - lia.
  - exact ramp3_is_ramp.
  - lra.
Defined.

(** C8 (as stated) fails: on the 3 x 3 ramp of slope [s = 20] with cell size
    20 the function returns [1 / sqrt 2], not [s / sqrt 2]. *)
Lemma ramp3_slope_is_not_s_over_sqrt2 :
  compute_mean_squared_slope (lift ramp3) (Fin 20) = Ret (Fin (/ sqrt 2)) /\
  compute_mean_squared_slope (lift ramp3) (Fin 20) <> Ret (Fin (20 / sqrt 2)).
Proof.
  pose proof sqrt2_pos as Hs.
  split; [exact ramp3_slope|]. rewrite ramp3_slope.
  intros Heq. injection Heq as Heq.
  assert (Hinv : 0 < / sqrt 2) by now apply Rinv_0_lt_compat.
  unfold Rdiv in Heq. lra.
Qed.

Lemma rect_offset n m c0 w : rect n m w -> rect n m (offset_window c0 w).
Proof.
  intros [Hn Hall]. split; unfold offset_window.
  - now rewrite length_map.
  - apply Forall_map. eapply Forall_impl; [|exact Hall].
    intros r Hr. cbn. now rewrite length_map.
Qed.

Lemma rget_offset n m c0 w i j :
  rect n m w -> (i < n)%nat -> (j < m)%nat ->
  rget (offset_window c0 w) i j = rget w i j + c0.
Proof.
  intros H Hi Hj. unfold rget, offset_window.
  pose proof (rect_row n m w i [] H Hi) as Hlen.
  rewrite (nth_indep _ [] (map (fun x => x + c0) []))
    by (rewrite length_map; destruct H; lia).
  rewrite (map_nth (map (fun x => x + c0)) w [] i).
  rewrite (nth_indep _ 0 (0 + c0)) by (rewrite length_map; lia).
  now rewrite (map_nth (fun x => x + c0) (nth i w []) 0 j).
Qed.

(** C10: the mean squared slope of a window of at least 3 x 3 does not
    change when a constant is added to every elevation: both cropped kernel
    responses are differences of two elevations of the window. *)
Theorem mean_squared_slope_offset_invariant n m w c0 dx :
  rect n m w -> (3 <= n)%nat -> (3 <= m)%nat -> 0 < dx ->
  compute_mean_squared_slope (lift (offset_window c0 w)) (Fin dx)
  = compute_mean_squared_slope (lift w) (Fin dx).
Proof.
  intros H Hn Hm Hdx.
  pose proof (rect_offset n m c0 w H) as Ho.
  unfold compute_mean_squared_slope. cbn [convolve2d bind].
  rewrite (member_1_lift n m _ Ho), (member_2_lift n m _ Ho) by lia.
  rewrite (member_1_lift n m w H), (member_2_lift n m w H) by lia.
  rewrite (build_ext (n - 1) (m - 1)
             (fun i j => Fin (rget (offset_window c0 w) (i + 1) j
                              - rget (offset_window c0 w) i j))
             (fun i j => Fin (rget w (i + 1) j - rget w i j))).
  2:{ intros i j Hi Hj. rewrite !(rget_offset n m c0 w) by (assumption || lia).
      f_equal. ring. }
  rewrite (build_ext (n - 1) (m - 1)
             (fun i j => Fin (rget (offset_window c0 w) i (j + 1)
                              - rget (offset_window c0 w) i j))
             (fun i j => Fin (rget w i (j + 1) - rget w i j))).
  2:{ intros i j Hi Hj. rewrite !(rget_offset n m c0 w) by (assumption || lia).
      f_equal. ring. }
  reflexivity.
Qed.

Lemma mean_squared_slope_offset_invariant_witness :
  compute_mean_squared_slope (lift (offset_window 100 ramp3)) (Fin 20)
  = compute_mean_squared_slope (lift ramp3) (Fin 20).
Proof.
  apply (mean_squared_slope_offset_invariant 3 3 ramp3 100 20).
  - apply rect_3x3.
  - lia.
  - lia.
  - lra.
Defined.

(** * Properties of the two empirical formulas *)

Section Formulas.

Lemma real_pow_nonneg x y : 0 <= x -> 0 <= real_pow x y.
Proof.
  intros H. unfold real_pow. destruct (Req_dec_T x 0); [lra|].
  unfold Rpower. left. apply exp_pos.
Qed.

Lemma real_pow_pos x y : 0 < x -> 0 < real_pow x y.
Proof.
  intros H. unfold real_pow. destruct (Req_dec_T x 0); [lra|].
  unfold Rpower. apply exp_pos.
Qed.

Lemma fpow_nonneg x y : 0 <= x -> 0 < y -> fpow (Fin x) y = Fin (real_pow x y).
Proof.
  intros Hx Hy. unfold real_pow. destruct (Req_dec_T x 0) as [->|Hne].
  - now apply fpow_zero.
  - apply fpow_pos; lra.
Qed.

Lemma Rpower_pos x y : 0 < Rpower x y.
Proof. unfold Rpower. apply exp_pos. Qed.

Lemma Rpower_gt_1 x y : 1 < x -> 0 < y -> 1 < Rpower x y.
Proof.
  intros Hx Hy.
  replace 1 with (Rpower 1 y) at 1.
  - apply Rlt_Rpower_l; lra.
  - unfold Rpower. rewrite ln_1, Rmult_0_r. apply exp_0.
Qed.

(** The value of the sky view factor on finite arguments, as the code
    computes it. *)
Lemma sky_view_factor_value mu xi L0 :
  0 <= mu -> 0 < xi -> 0 < L0 ->
  compute_sky_view_factor (Fin mu) (Fin xi) (Fin L0)
  = Ret (Fin (1 + - ((1 + - (1 / Rpower (1 + a * real_pow mu b) c))
                     * exp (- d * Rpower (L0 / xi) (-2))))).
Proof.
  intros Hmu Hxi HL. unfold compute_sky_view_factor.
  assert (Hb : 0 < b) by (unfold b; lra).
  assert (Hc : c <> 0) by (unfold c; lra).
  assert (Ha : 0 < a) by (unfold a; lra).
  rewrite (fpow_nonneg mu b Hmu Hb). cbn [fmul fadd].
  pose proof (real_pow_nonneg mu b Hmu) as Hp.
  rewrite fpow_pos by (assumption || nra).
  rewrite fdiv_pos by apply Rpower_pos.
  rewrite (fdiv_pos L0 xi Hxi).
  assert (0 < L0 / xi) by (apply Rdiv_lt_0_compat; assumption).
  rewrite fpow_pos by (assumption || lra).
  reflexivity.
Qed.

Lemma downscaling_factor_value lap mu :
  0 <= mu ->
  compute_downscaling_factor (Fin lap) (Fin mu)
  = Ret (Fin ((1 + - (a_prime * lap
                      / (1 + a_prime * real_pow (Rabs lap) b_prime)))
              * c_prime / (1 + d_prime + real_pow mu e_prime))).
Proof.
  intros Hmu. unfold compute_downscaling_factor. cbn [fabs].
  assert (Hb : 0 < b_prime) by (unfold b_prime; lra).
  assert (He : 0 < e_prime) by (unfold e_prime; lra).
  assert (Ha : 0 < a_prime) by (unfold a_prime; lra).
  assert (Hd : 0 < d_prime) by (unfold d_prime; lra).
  rewrite (fpow_nonneg (Rabs lap) b_prime (Rabs_pos lap) Hb).
  rewrite (fpow_nonneg mu e_prime Hmu He). cbn [fmul fadd].
  pose proof (real_pow_nonneg (Rabs lap) b_prime (Rabs_pos lap)).
  pose proof (real_pow_nonneg mu e_prime Hmu).
  rewrite fdiv_pos by nra. cbn [fsub fneg fadd fmul].
  rewrite fdiv_pos by lra. reflexivity.
Qed.

End Formulas.

(** C5: for a non-negative slope, a positive width and a positive coarse
    cell size, [compute_sky_view_factor] returns
    [1 - (1 - (1 + a mu^b)^(-c)) exp (-d (L/xi)^(-2))]
    with [a = 3.354688], [b = 1.998767], [c = 0.20286], [d = 5.951]. *)
Theorem sky_view_factor_formula mu xi L0 :
  0 <= mu -> 0 < xi -> 0 < L0 ->
  compute_sky_view_factor (Fin mu) (Fin xi) (Fin L0)
  = Ret (Fin (F_sky_formula mu xi L0)) /\
  a = 3.354688 /\ b = 1.998767 /\ c = 0.20286 /\ d = 5.951.
Proof.
  intros Hmu Hxi HL. split; [|repeat split; reflexivity].
  rewrite (sky_view_factor_value mu xi L0 Hmu Hxi HL).
  do 2 f_equal. unfold F_sky_formula.
  assert (0 < L0 / xi) by (apply Rdiv_lt_0_compat; assumption).
  rewrite Rpower_Ropp, Rpower_m2 by assumption.
  unfold Rdiv. cbn [pow]. rewrite Rmult_1_l, Rmult_1_r. ring.
Qed.

Lemma sky_view_factor_formula_witness :
  compute_sky_view_factor (Fin 0) (Fin 20) (Fin 2500)
  = Ret (Fin (F_sky_formula 0 20 2500)) /\
  a = 3.354688 /\ b = 1.998767 /\ c = 0.20286 /\ d = 5.951.
Proof. apply (sky_view_factor_formula 0 20 2500); lra. Defined.

(** C6: for a finite Laplacian and a non-negative slope,
    [compute_downscaling_factor] returns
    [(1 - a' lap / (1 + a' |lap|^b')) c' / (1 + d' + mu^e')], the denominator
    being the sum [1 + d' + mu^e'], with [a' = 17.0393], [b' = 0.737],
    [c' = 1.0234], [d' = 0.3794], [e' = 1.9821]. *)
Theorem downscaling_factor_formula lap mu :
  0 <= mu ->
  compute_downscaling_factor (Fin lap) (Fin mu)
  = Ret (Fin (X_dsc_topo_formula lap mu)) /\
  a_prime = 17.0393 /\ b_prime = 0.737 /\ c_prime = 1.0234 /\
  d_prime = 0.3794 /\ e_prime = 1.9821.
Proof.
  intros Hmu. split; [|repeat split; reflexivity].
  rewrite (downscaling_factor_value lap mu Hmu). reflexivity.
Qed.

Lemma downscaling_factor_formula_witness :
  compute_downscaling_factor (Fin (-1)) (Fin 0)
  = Ret (Fin (X_dsc_topo_formula (-1) 0)) /\
  a_prime = 17.0393 /\ b_prime = 0.737 /\ c_prime = 1.0234 /\
  d_prime = 0.3794 /\ e_prime = 1.9821.
Proof. apply (downscaling_factor_formula (-1) 0); lra. Defined.

(** The denominator is the sum: at a zero Laplacian and [mu = 1] the code
    returns [c' / (1 + d' + 1)], which is not [c' / (1 + d' * 1)]. *)
Lemma downscaling_factor_denominator_is_a_sum :
  compute_downscaling_factor (Fin 0) (Fin 1)
  = Ret (Fin (c_prime / (1 + d_prime + 1))) /\
  c_prime / (1 + d_prime + 1) <> c_prime / (1 + d_prime * 1).
Proof.
  split.
  - rewrite downscaling_factor_value by lra. do 2 f_equal.
    unfold real_pow. rewrite Rabs_R0.
    destruct (Req_dec_T 0 0) as [_|Hne]; [|lra].
    destruct (Req_dec_T 1 0) as [Habs|_]; [lra|].
    unfold Rpower.
    replace (exp (e_prime * ln 1)) with 1
      by (now rewrite ln_1, (Rmult_0_r e_prime), exp_0).
    unfold Rdiv. rewrite !Rmult_0_r, Rmult_0_l. ring.
  - unfold c_prime, d_prime. lra.
Qed.

Section SkyViewFactorShape.

Variables mu L0 : R.
Hypothesis mu_pos : 0 < mu.
Hypothesis L0_pos : 0 < L0.
Variables xi1 xi2 : R.
Hypothesis xi1_pos : 0 < xi1.
Hypothesis xi_le : xi1 <= xi2.

(** The slope factor [1 - (1 + a mu^b)^(-c)] lies strictly between 0 and 1. *)
Lemma slope_factor_bounds :
  0 < 1 + - (1 / Rpower (1 + a * real_pow mu b) c) < 1.
Proof.
  assert (Ha : 0 < a) by (unfold a; lra).
  assert (Hc : 0 < c) by (unfold c; lra).
  pose proof (real_pow_pos mu b mu_pos) as Hp.
  pose proof (Rmult_lt_0_compat _ _ Ha Hp) as Hap.
  assert (Hbase : 1 < 1 + a * real_pow mu b) by lra.
  pose proof (Rpower_gt_1 _ c Hbase Hc) as HP.
  assert (Hinv : 0 < / Rpower (1 + a * real_pow mu b) c)
    by (apply Rinv_0_lt_compat; lra).
  assert (Hinv1 : / Rpower (1 + a * real_pow mu b) c < 1).
  { assert (Hr : Rpower (1 + a * real_pow mu b) c
                 * / Rpower (1 + a * real_pow mu b) c = 1)
      by (apply Rinv_r; lra).
    set (P := Rpower (1 + a * real_pow mu b) c) in *. nra. }
  unfold Rdiv. lra.
Qed.

(** The width factor [exp (-d (L/xi)^(-2))] lies in (0, 1) and decreases
    with [xi]. *)
Lemma width_factor_bounds xi :
  0 < exp (- d * Rpower (L0 / xi) (-2)) < 1.
Proof.
  split; [apply exp_pos|].
  rewrite <- exp_0. apply exp_increasing.
  assert (Hd : 0 < d) by (unfold d; lra).
  pose proof (Rpower_pos (L0 / xi) (-2)). nra.
Qed.

Lemma width_factor_decreasing :
  exp (- d * Rpower (L0 / xi2) (-2)) <= exp (- d * Rpower (L0 / xi1) (-2)).
Proof.
  assert (Hd : 0 < d) by (unfold d; lra).
  assert (Hq1 : 0 < L0 / xi1) by (apply Rdiv_lt_0_compat; lra).
  assert (Hq2 : 0 < L0 / xi2) by (apply Rdiv_lt_0_compat; lra).
  assert (Hq : L0 / xi2 <= L0 / xi1).
  { unfold Rdiv. apply Rmult_le_compat_l; [lra|].
    apply Rinv_le_contravar; lra. }
  rewrite !Rpower_m2 by assumption.
  assert (Hinv : / (L0 / xi1 * (L0 / xi1)) <= / (L0 / xi2 * (L0 / xi2))).
  { apply Rinv_le_contravar; nra. }
  destruct (Rle_lt_or_eq_dec _ _ Hinv) as [Hlt|Heq].
  - left. apply exp_increasing. nra.
  - rewrite Heq. right. reflexivity.
Qed.

End SkyViewFactorShape.

(** C7: for a fixed positive slope and coarse cell size,
    [compute_sky_view_factor] is non-decreasing in the width [xi > 0], and
    its value lies in (0, 1]. *)
Theorem sky_view_factor_monotone_bounded mu L0 xi1 xi2 :
  0 < mu -> 0 < L0 -> 0 < xi1 -> xi1 <= xi2 ->
  exists f1 f2 : R,
    compute_sky_view_factor (Fin mu) (Fin xi1) (Fin L0) = Ret (Fin f1) /\
    compute_sky_view_factor (Fin mu) (Fin xi2) (Fin L0) = Ret (Fin f2) /\
    f1 <= f2 /\ 0 < f1 <= 1 /\ 0 < f2 <= 1.
Proof.
  intros Hmu HL H1 H12.
  assert (H2 : 0 < xi2) by lra.
  eexists. eexists.
  split; [apply sky_view_factor_value; lra|].
  split; [apply sky_view_factor_value; lra|].
  pose proof (slope_factor_bounds mu Hmu) as HA.
  pose proof (width_factor_bounds L0 xi1) as HE1.
  pose proof (width_factor_bounds L0 xi2) as HE2.
  pose proof (width_factor_decreasing L0 HL xi1 xi2 H1 H12) as HE.
  set (A := 1 + - (1 / Rpower (1 + a * real_pow mu b) c)) in *.
  set (E1 := exp (- d * Rpower (L0 / xi1) (-2))) in *.
  set (E2 := exp (- d * Rpower (L0 / xi2) (-2))) in *.
  repeat split; nra.
Qed.

Lemma sky_view_factor_monotone_bounded_witness :
  exists f1 f2 : R,
    compute_sky_view_factor (Fin 1) (Fin 20) (Fin 2500) = Ret (Fin f1) /\
    compute_sky_view_factor (Fin 1) (Fin 40) (Fin 2500) = Ret (Fin f2) /\
    f1 <= f2 /\ 0 < f1 <= 1 /\ 0 < f2 <= 1.
Proof. apply (sky_view_factor_monotone_bounded 1 2500 20 40); lra. Defined.

(** * The elevation Laplacian *)

Section Laplacian.

Lemma in_bounds_true lo hi i :
  (lo <= i)%nat -> (i < hi)%nat -> in_bounds (lo, hi) i = true.
Proof.
  intros H1 H2. unfold in_bounds. cbn [fst snd].
  apply andb_true_intro. split; [now apply Nat.leb_le|now apply Nat.ltb_lt].
Qed.

Lemma in_bounds_false lo hi i :
  (i < lo)%nat \/ (hi <= i)%nat -> in_bounds (lo, hi) i = false.
Proof.
  intros H. unfold in_bounds. cbn [fst snd]. apply andb_false_iff.
  destruct H; [left; apply Nat.leb_gt|right; apply Nat.ltb_ge]; lia.
Qed.

Lemma bounds_1_m1 len :
  (2 <= len)%nat -> bounds len (Some 1%Z, Some (-1)%Z) = (1%nat, (len - 1)%nat).
Proof.
  intros H. unfold bounds. cbn [fst snd].
  rewrite norm_index_m1, norm_index_pos by lia.
  change (Z.to_nat 1) with 1%nat. f_equal. lia.
Qed.

Lemma conv_valid_laplacian n m w :
  rect n m w -> (3 <= n)%nat -> (3 <= m)%nat ->
  convolve2d (lift w) laplacian_kernel Valid
  = Ret (build (n - 2) (m - 2) (fun i j => Fin (stencil w (i + 1) (j + 1)))).
Proof.
  intros H Hn Hm.
  pose proof (rect_lift n m w H) as HL.
  unfold convolve2d.
  rewrite (nrows_rect n m _ HL), (ncols_rect n m _ HL) by lia.
  change (nrows laplacian_kernel) with 3%nat.
  change (ncols laplacian_kernel) with 3%nat.
  replace ((3 <=? n)%nat && (3 <=? m)%nat) with true
    by (symmetry; apply andb_true_intro; split; apply Nat.leb_le; lia).
  f_equal. unfold conv_valid.
  rewrite (nrows_rect n m _ HL), (ncols_rect n m _ HL) by lia.
  change (nrows laplacian_kernel) with 3%nat.
  change (ncols laplacian_kernel) with 3%nat.
  replace (n - 3 + 1)%nat with (n - 2)%nat by lia.
  replace (m - 3 + 1)%nat with (m - 2)%nat by lia.
  apply build_ext. intros i j Hi Hj.
  unfold laplacian_kernel.
  rewrite (full_at_3x3 n m w _ _ _ _ _ _ _ _ _ _ _ H).
  f_equal. unfold stencil.
  change (Z.of_nat (3 - 1)) with 2%Z.
  replace (Z.of_nat i + 2)%Z with (Z.of_nat (i + 2)) by lia.
  replace (Z.of_nat j + 2)%Z with (Z.of_nat (j + 2)) by lia.
  replace (Z.of_nat (i + 2) - 1)%Z with (Z.of_nat (i + 1)) by lia.
  replace (Z.of_nat (i + 2) - 2)%Z with (Z.of_nat i) by lia.
  replace (Z.of_nat (j + 2) - 1)%Z with (Z.of_nat (j + 1)) by lia.
  replace (Z.of_nat (j + 2) - 2)%Z with (Z.of_nat j) by lia.
  rewrite !(rgetZ_in n m w) by (assumption || lia).
  replace (i + 1 - 1)%nat with i by lia.
  replace (j + 1 - 1)%nat with j by lia.
  replace (i + 1 + 1)%nat with (i + 2)%nat by lia.
  replace (j + 1 + 1)%nat with (j + 2)%nat by lia.
  ring.
Qed.

(** The Laplacian array of a window of finite elevations, entry by entry. *)
Lemma elevation_laplacien_value n m w dx :
  rect n m w -> (3 <= n)%nat -> (3 <= m)%nat -> 0 < dx ->
  compute_elevation_laplacien (lift w) (Fin dx)
  = Ret (build n m
           (fun i j =>
              if in_bounds (1%nat, (n - 1)%nat) i
                 && in_bounds (1%nat, (m - 1)%nat) j
              then Fin (stencil w i j / (dx * dx) * dx / 4)
              else NaN)).
Proof.
  intros H Hn Hm Hdx.
  pose proof (rect_lift n m w H) as HL.
  unfold compute_elevation_laplacien.
  rewrite (conv_valid_laplacian n m w H Hn Hm). cbn [bind].
  rewrite (nrows_rect n m _ HL), (ncols_rect n m _ HL) by lia.
  rewrite arr_map_build.
  unfold setitem2, nan_array.
  rewrite !nrows_build, !ncols_build by lia.
  rewrite !bounds_1_m1 by lia. cbn [fst snd].
  replace (broadcastable (n - 2) (n - 1 - 1)) with true
    by (unfold broadcastable; replace (n - 1 - 1)%nat with (n - 2)%nat by lia;
        now rewrite Nat.eqb_refl).
  replace (broadcastable (m - 2) (m - 1 - 1)) with true
    by (unfold broadcastable; replace (m - 1 - 1)%nat with (m - 2)%nat by lia;
        now rewrite Nat.eqb_refl).
  cbn [andb bind]. rewrite arr_map_build. f_equal.
  apply build_ext. intros i j Hi Hj.
  destruct (in_bounds (1%nat, (n - 1)%nat) i) eqn:Ei;
    [destruct (in_bounds (1%nat, (m - 1)%nat) j) eqn:Ej|]; cbn [andb];
    try (rewrite get_build by assumption; reflexivity).
  unfold in_bounds in Ei, Ej. cbn [fst snd] in Ei, Ej.
  apply andb_prop in Ei, Ej. destruct Ei as [Ei1 Ei2], Ej as [Ej1 Ej2].
  apply Nat.leb_le in Ei1, Ej1. apply Nat.ltb_lt in Ei2, Ej2.
  assert (Hgi : (if (n - 2 =? 1)%nat then 0%nat else (i - 1)%nat) = (i - 1)%nat).
  { destruct (Nat.eqb_spec (n - 2) 1); lia. }
  assert (Hgj : (if (m - 2 =? 1)%nat then 0%nat else (j - 1)%nat) = (j - 1)%nat).
  { destruct (Nat.eqb_spec (m - 2) 1); lia. }
  rewrite Hgi, Hgj. rewrite get_build by lia.
  replace (i - 1 + 1)%nat with i by lia.
  replace (j - 1 + 1)%nat with j by lia.
  rewrite fpow_pos by lra. rewrite Rpower_2 by assumption.
  rewrite fdiv_pos by nra. cbn [fmul]. rewrite fdiv_pos by lra.
  reflexivity.
Qed.

End Laplacian.

(** C9: on an elevation array of at least 3 x 3 and for a positive cell
    size, [compute_elevation_laplacien] returns an array of the shape of its
    input; every pixel of its one-pixel border is [nan], and every interior
    pixel is the 5-point stencil sum divided by [delta_x ^ 2] and multiplied
    by [delta_x / 4]. *)
Theorem elevation_laplacien_shape_border_interior n m w dx :
  rect n m w -> (3 <= n)%nat -> (3 <= m)%nat -> 0 < dx ->
  exists N : array,
    compute_elevation_laplacien (lift w) (Fin dx) = Ret N /\
    rect n m N /\
    (forall i j, (i < n)%nat -> (j < m)%nat -> on_border n m i j ->
       get N i j = NaN) /\
    (forall i j, (0 < i < n - 1)%nat -> (0 < j < m - 1)%nat ->
       get N i j = Fin (stencil w i j / (dx * dx) * (dx / 4))).
Proof.
  intros H Hn Hm Hdx. eexists.
  split; [apply (elevation_laplacien_value n m w dx H Hn Hm Hdx)|].
  split; [apply rect_build|]. split.
  - intros i j Hi Hj Hb. rewrite get_build by assumption.
    destruct Hb as [Hb|[Hb|[Hb|Hb]]].
    + rewrite (in_bounds_false 1 (n - 1) i) by lia. reflexivity.
    + rewrite (in_bounds_false 1 (n - 1) i) by lia. reflexivity.
    + rewrite (in_bounds_false 1 (m - 1) j) by lia.
      now rewrite andb_false_r.
    + rewrite (in_bounds_false 1 (m - 1) j) by lia.
      now rewrite andb_false_r.
  - intros i j Hi Hj. rewrite get_build by lia.
    rewrite !in_bounds_true by lia. cbn [andb]. f_equal.
    unfold Rdiv. ring.
Qed.

Lemma elevation_laplacien_shape_border_interior_witness :
  exists N : array,
    compute_elevation_laplacien (lift ramp3) (Fin 20) = Ret N /\
    rect 3 3 N /\
    (forall i j, (i < 3)%nat -> (j < 3)%nat -> on_border 3 3 i j ->
       get N i j = NaN) /\
    (forall i j, (0 < i < 3 - 1)%nat -> (0 < j < 3 - 1)%nat ->
       get N i j = Fin (stencil ramp3 i j / (20 * 20) * (20 / 4))).
Proof.
  apply (elevation_laplacien_shape_border_interior 3 3 ramp3 20).
  - apply rect_3x3.
  - lia.
  - lia.
  - lra.
Defined.

(** * The two passes over the coarse grid *)

Section Passes.

Lemma mean_squared_slope_returns A : 
  compute_mean_squared_slope A delta_x = Ret (mu_of A).
Proof. reflexivity. Qed.

Lemma typical_width_returns dem A :
  compute_typical_width (mu_of A) (np_std dem) = Ret (xi_of dem A).
Proof. reflexivity. Qed.

Lemma sky_view_factor_returns dem A :
  compute_sky_view_factor (mu_of A) (xi_of dem A) L = Ret (F_sky_of dem A).
Proof. reflexivity. Qed.

Lemma downscaling_factor_returns lap mu :
  compute_downscaling_factor lap mu = Ret (X_dsc_topo_of mu lap).
Proof. reflexivity. Qed.

Lemma mapM_ret {A B : Type} (g : A -> B) (l : list A) :
  mapM (fun x => Ret (g x)) l = Ret (map g l).
Proof.
  induction l as [|x l IH]; [reflexivity|]. cbn [mapM bind map].
  now rewrite IH.
Qed.

Lemma mapM_ext {A B : Type} (f g : A -> result B) (l : list A) :
  (forall x, f x = g x) -> mapM f l = mapM g l.
Proof.
  intros H. induction l as [|x l IH]; [reflexivity|].
  cbn [mapM]. now rewrite H, IH.
Qed.

Lemma downscaling_factor_vectorized_value A mu :
  compute_downscaling_factor_vectorized A mu
  = if (size A =? 0)%nat then Exc ValueError
    else Ret (arr_map (X_dsc_topo_of mu) A).
Proof.
  unfold compute_downscaling_factor_vectorized, np_vectorize.
  destruct (size A =? 0)%nat; [reflexivity|].
  change (fun x => compute_downscaling_factor x mu)
    with (fun x => Ret (X_dsc_topo_of mu x)).
  unfold arr_map.
  rewrite (mapM_ext _ (fun r => Ret (map (X_dsc_topo_of mu) r))).
  - apply mapM_ret.
  - intros r. apply mapM_ret.
Qed.

Lemma shape_build n m A f :
  shape n m A -> shape n m (build (nrows A) (ncols A) f).
Proof.
  intros [Hn Hm]. split; [now rewrite nrows_build|].
  destruct A as [|r A'].
  - cbn in *. now subst.
  - rewrite ncols_build; [assumption|cbn; lia].
Qed.

Lemma in_bounds_iff b i :
  in_bounds b i = true <-> (fst b <= i < snd b)%nat.
Proof.
  unfold in_bounds. rewrite andb_true_iff, Nat.leb_le, Nat.ltb_lt. tauto.
Qed.

Lemma norm_index_le len k : (norm_index len k <= len)%nat.
Proof.
  apply Nat2Z.inj_le. rewrite norm_index_Z. destruct (k <? 0)%Z; lia.
Qed.

Lemma bounds_le len s : (snd (bounds len s) <= len)%nat.
Proof.
  unfold bounds. cbn [snd]. destruct (snd s); [apply norm_index_le|lia].
Qed.

Lemma subset_array_block A center :
  subset_array A center
  = build (snd (bounds (nrows A) (block_rows center))
           - fst (bounds (nrows A) (block_rows center)))
          (snd (bounds (ncols A) (block_cols center))
           - fst (bounds (ncols A) (block_cols center)))
          (fun i j => get A (fst (bounds (nrows A) (block_rows center)) + i)
                            (fst (bounds (ncols A) (block_cols center)) + j)).
Proof. reflexivity. Qed.

(** What the raster wrapper returns when both rasters are arrays. *)
Lemma raster_wrapper_value c_row dem F X nabla :
  downscaling_parameters_processing_wrapper c_row dem (PyArr F) (PyArr X) nabla
  = Ret (let center := array_coords c_row in
         let sub := subset_array nabla center in
         if (size sub =? 0)%nat then (PyInt (-999), PyInt (-999))
         else
           match setitem2 X (block_rows center) (block_cols center)
                   (arr_map (X_dsc_topo_of (mu_of (subset_array dem center))) sub)
           with
           | Ret X' =>
               (PyArr (setitem2_scalar F (block_rows center) (block_cols center)
                         (F_sky_of dem (subset_array dem center))),
                PyArr X')
           | Exc _ => (PyInt (-999), PyInt (-999))
           end).
Proof.
  unfold downscaling_parameters_processing_wrapper.
  rewrite mean_squared_slope_returns. cbn [bind].
  rewrite typical_width_returns. cbn [bind].
  rewrite sky_view_factor_returns. cbn [bind].
  rewrite downscaling_factor_vectorized_value. cbv zeta.
  destruct (size (subset_array nabla (array_coords c_row)) =? 0)%nat;
    [reflexivity|].
  cbn [bind py_setitem2_scalar py_setitem2 try_except].
  change (Some (fst (array_coords c_row) - 62), Some (fst (array_coords c_row) + 63))%Z
    with (block_rows (array_coords c_row)).
  change (Some (snd (array_coords c_row) - 62), Some (snd (array_coords c_row) + 63))%Z
    with (block_cols (array_coords c_row)).
  destruct (setitem2 X _ _ _); reflexivity.
Qed.

(** Once a raster name is bound to an integer, the wrapper keeps returning
    the pair of integers: item assignment on an [int] raises inside [try]. *)
Lemma raster_wrapper_int c_row dem z Xv nabla :
  downscaling_parameters_processing_wrapper c_row dem (PyInt z) Xv nabla
  = Ret (PyInt (-999), PyInt (-999)).
Proof.
  unfold downscaling_parameters_processing_wrapper.
  rewrite mean_squared_slope_returns. cbn [bind].
  rewrite typical_width_returns. cbn [bind].
  rewrite sky_view_factor_returns. cbn [bind].
  destruct (compute_downscaling_factor_vectorized _ _); reflexivity.
Qed.

(** A cell whose co-located window of the Laplacian is empty takes the
    [except] branch. *)
Lemma raster_wrapper_empty_window c_row dem F X nabla :
  size (subset_array nabla (array_coords c_row)) = 0%nat ->
  downscaling_parameters_processing_wrapper c_row dem (PyArr F) (PyArr X) nabla
  = Ret (PyInt (-999), PyInt (-999)).
Proof. intros H. rewrite raster_wrapper_value. cbv zeta. now rewrite H. Qed.

Lemma raster_loop_int dem nabla cells z Xv F X :
  raster_loop dem nabla cells (PyInt z) Xv <> Ret (PyArr F, X).
Proof.
  revert z Xv. induction cells as [|c0 rest IH]; intros z Xv.
  - cbn. discriminate.
  - cbn [raster_loop]. rewrite raster_wrapper_int. cbn [bind fst snd].
    apply IH.
Qed.

Lemma raster_loop_int_nonempty dem nabla c0 rest z Xv :
  raster_loop dem nabla (c0 :: rest) (PyInt z) Xv
  = Ret (PyInt (-999), PyInt (-999)).
Proof.
  cbn [raster_loop]. rewrite raster_wrapper_int. cbn [bind fst snd].
  induction rest as [|c1 rest IH]; [reflexivity|].
  cbn [raster_loop]. rewrite raster_wrapper_int. cbn [bind fst snd]. exact IH.
Qed.

(** The effect of one successful cell on every pixel of the two rasters. *)
Lemma raster_wrapper_arrays n m c_row dem F X nabla fv xv :
  shape n m dem -> shape n m F -> shape n m X -> shape n m nabla ->
  downscaling_parameters_processing_wrapper c_row dem (PyArr F) (PyArr X) nabla
  = Ret (fv, xv) ->
  (fv = PyInt (-999) /\ xv = PyInt (-999)) \/
  exists F' X',
    fv = PyArr F' /\ xv = PyArr X' /\ shape n m F' /\ shape n m X' /\
    forall i j, (i < n)%nat -> (j < m)%nat ->
      if covers dem c_row i j
      then get F' i j = F_sky_of dem (subset_array dem (array_coords c_row)) /\
           get X' i j
           = X_dsc_topo_of (mu_of (subset_array dem (array_coords c_row)))
                           (get nabla i j)
      else get F' i j = get F i j /\ get X' i j = get X i j.
Proof.
  intros [Hdn Hdm] HF HX [Hnn Hnm] H.
  rewrite raster_wrapper_value in H. cbv zeta in H.
  injection H as H.
  destruct (size (subset_array nabla (array_coords c_row)) =? 0)%nat;
    [left; injection H as <- <-; now split|].
  unfold setitem2 in H.
  destruct HF as [HFn HFm], HX as [HXn HXm].
  rewrite (subset_array_block nabla) in H. rewrite arr_map_build in H.
  rewrite HXn, HXm, Hnn, Hnm in H.
  set (rb := bounds n (block_rows (array_coords c_row))) in *.
  set (cb := bounds m (block_cols (array_coords c_row))) in *.
  set (g := X_dsc_topo_of (mu_of (subset_array dem (array_coords c_row)))) in *.
  destruct (broadcastable _ _ && broadcastable _ _);
    [|left; injection H as <- <-; now split].
  right. injection H as <- <-.
  eexists. eexists. split; [reflexivity|]. split; [reflexivity|].
  split.
  { unfold setitem2_scalar. apply shape_build. now split. }
  split.
  { rewrite <- HXn, <- HXm. apply shape_build. now split. }
  intros i j Hi Hj. unfold setitem2_scalar.
  rewrite HFn, HFm. rewrite !get_build by assumption.
  unfold covers. rewrite Hdn, Hdm. fold rb cb.
  destruct (in_bounds rb i && in_bounds cb j) eqn:E; [|now split].
  split; [reflexivity|].
  apply andb_prop in E. destruct E as [Er Ec].
  apply in_bounds_iff in Er, Ec.
  unfold rb, cb, bounds, block_rows, block_cols, rows_around, cols_around
    in Er, Ec |- *.
  cbn [fst snd] in Er, Ec |- *. change (62 + 1)%Z with 63%Z in Er, Ec |- *.
  set (lr := norm_index n (fst (array_coords c_row) - 62)) in *.
  set (hr := norm_index n (fst (array_coords c_row) + 63)) in *.
  set (lc := norm_index m (snd (array_coords c_row) - 62)) in *.
  set (hc := norm_index m (snd (array_coords c_row) + 63)) in *.
  rewrite ?nrows_build.
  rewrite ncols_build by lia.
  assert (Hgi : (if (hr - lr =? 1)%nat then 0%nat else (i - lr)%nat)
                = (i - lr)%nat).
  { destruct (Nat.eqb_spec (hr - lr) 1); lia. }
  assert (Hgj : (if (hc - lc =? 1)%nat then 0%nat else (j - lc)%nat)
                = (j - lc)%nat).
  { destruct (Nat.eqb_spec (hc - lc) 1); lia. }
  rewrite Hgi, Hgj. rewrite get_build by lia.
  replace (lr + (i - lr))%nat with i by lia.
  replace (lc + (j - lc))%nat with j by lia.
  reflexivity.
Qed.

End Passes.

(** * The raster pass: which cell a pixel holds in the end *)

Section RasterPass.

Variables (n m : nat) (dem nabla : array).
Hypothesis dem_shape : shape n m dem.
Hypothesis nabla_shape : shape n m nabla.

(** A loop that ends with two arrays has overwritten every pixel with the
    values of the last cell that covers it, and has left alone the pixels
    that no cell covers. *)
Lemma raster_loop_last_write cells :
  forall F0 X0 F X,
    shape n m F0 -> shape n m X0 ->
    raster_loop dem nabla cells (PyArr F0) (PyArr X0) = Ret (PyArr F, PyArr X) ->
    shape n m F /\ shape n m X /\
    forall i j, (i < n)%nat -> (j < m)%nat ->
      (forall pre c_row post,
         cells = pre ++ c_row :: post ->
         covers dem c_row i j = true ->
         (forall c', In c' post -> covers dem c' i j = false) ->
         written_by dem nabla c_row i j F X) /\
      ((forall c', In c' cells -> covers dem c' i j = false) ->
       get F i j = get F0 i j /\ get X i j = get X0 i j).
Proof.
  induction cells as [|c0 rest IH]; intros F0 X0 F X HF0 HX0 H.
  - cbn in H. injection H as <- <-. split; [assumption|]. split; [assumption|].
    intros i j Hi Hj. split.
    + intros pre c_row post Habs. destruct pre; discriminate.
    + intros _. now split.
  - cbn [raster_loop] in H.
    destruct (downscaling_parameters_processing_wrapper c0 dem (PyArr F0)
                (PyArr X0) nabla) as [[fv xv]|e] eqn:W; [|discriminate].
    cbn [bind fst snd] in H.
    destruct (raster_wrapper_arrays n m c0 dem F0 X0 nabla fv xv
                dem_shape HF0 HX0 nabla_shape W)
      as [[-> ->]|(F1 & X1 & -> & -> & HF1 & HX1 & Hpix)].
    { exfalso. exact (raster_loop_int _ _ _ _ _ _ _ H). }
    destruct (IH F1 X1 F X HF1 HX1 H) as (HF & HX & Hrest).
    split; [assumption|]. split; [assumption|].
    intros i j Hi Hj. destruct (Hrest i j Hi Hj) as [Hlast Hnone].
    specialize (Hpix i j Hi Hj). split.
    + intros pre c_row post Hsplit Hcov Hpost.
      destruct pre as [|c1 pre]; cbn in Hsplit; injection Hsplit as -> ->.
      * destruct (Hnone Hpost) as [EF EX].
        rewrite Hcov in Hpix. destruct Hpix as [PF PX].
        unfold written_by. rewrite EF, EX. now split.
      * exact (Hlast pre c_row post eq_refl Hcov Hpost).
    + intros Hno.
      assert (Hc0 : covers dem c0 i j = false) by (apply Hno; now left).
      rewrite Hc0 in Hpix. destruct Hpix as [PF PX].
      destruct (Hnone (fun c' Hin => Hno c' (or_intror Hin))) as [EF EX].
      rewrite EF, EX. now split.
Qed.

End RasterPass.

Lemma shape_self (A : array) : shape (nrows A) (ncols A) A.
Proof. now split. Qed.

Lemma shape_nan_array (A : array) :
  shape (nrows A) (ncols A) (nan_array (nrows A) (ncols A)).
Proof. unfold nan_array. apply shape_build, shape_self. Qed.

Lemma elevation_laplacien_shape A dx N :
  compute_elevation_laplacien A dx = Ret N -> shape (nrows A) (ncols A) N.
Proof.
  unfold compute_elevation_laplacien. intros H.
  destruct (convolve2d A laplacian_kernel Valid) as [cv|e]; [|discriminate].
  cbn [bind] in H. unfold setitem2 in H.
  destruct (broadcastable _ _ && broadcastable _ _); [|discriminate].
  cbn [bind] in H. injection H as <-. rewrite arr_map_build.
  apply shape_build, shape_nan_array.
Qed.

(** C4 (as the code behaves): in a raster pass that ends with two rasters
    (every cell of the batch was processed), take two cells whose
    sub-blocks both contain pixel [(i, j)]; when the later of the two is the
    last cell of the collection to write that pixel, the pixel holds, in
    [F_array], the sky view factor of that later cell and, in [X_array], the
    downscaling factor computed from that cell's slope and the pixel's
    Laplacian. *)
Theorem last_write_wins dem pre c1 mid c2 post F X i j :
  raster_mode dem (pre ++ c1 :: mid ++ c2 :: post) = Ret (PyArr F, PyArr X) ->
  covers dem c1 i j = true ->
  covers dem c2 i j = true ->
  (forall c', In c' post -> covers dem c' i j = false) ->
  exists nabla mu xi,
    compute_elevation_laplacien dem delta_x = Ret nabla /\
    compute_mean_squared_slope (subset_array dem (array_coords c2)) delta_x
    = Ret mu /\
    compute_typical_width mu (np_std dem) = Ret xi /\
    compute_sky_view_factor mu xi L = Ret (get F i j) /\
    compute_downscaling_factor (get nabla i j) mu = Ret (get X i j).
Proof.
  intros H Hc1 Hc2 Hpost. unfold raster_mode in H.
  destruct (compute_elevation_laplacien dem delta_x) as [nabla|e] eqn:EN;
    [|discriminate].
  cbn [bind] in H.
  pose proof (elevation_laplacien_shape _ _ _ EN) as HN.
  destruct (raster_loop_last_write (nrows dem) (ncols dem) dem nabla
              (shape_self dem) HN _ _ _ _ _
              (shape_nan_array dem) (shape_nan_array dem) H)
    as (_ & _ & Hpix).
  assert (Hi : (i < nrows dem)%nat).
  { unfold covers in Hc2. apply andb_prop in Hc2. destruct Hc2 as [Hr _].
    apply in_bounds_iff in Hr.
    pose proof (bounds_le (nrows dem) (block_rows (array_coords c2))). lia. }
  assert (Hj : (j < ncols dem)%nat).
  { unfold covers in Hc2. apply andb_prop in Hc2. destruct Hc2 as [_ Hc].
    apply in_bounds_iff in Hc.
    pose proof (bounds_le (ncols dem) (block_cols (array_coords c2))). lia. }
  destruct (Hpix i j Hi Hj) as [Hlast _].
  destruct (Hlast (pre ++ c1 :: mid) c2 post) as [PF PX].
  - now rewrite <- app_assoc.
  - assumption.
  - assumption.
  - exists nabla, (mu_of (subset_array dem (array_coords c2))),
      (xi_of dem (subset_array dem (array_coords c2))).
    split; [reflexivity|]. split; [reflexivity|]. split; [reflexivity|].
    split.
    + rewrite PF. reflexivity.
    + rewrite PX. reflexivity.
Qed.

(** * Mean and standard deviation of a grid of finite elevations *)

Section Statistics.

Lemma fsum_map_Fin l : fsum (map Fin l) = Fin (rsum l).
Proof.
  induction l as [|x l IH]; [reflexivity|].
  cbn [map fsum fold_right rsum]. fold (fsum (map Fin l)). now rewrite IH.
Qed.

Lemma concat_lift w : concat (lift w) = map Fin (concat w).
Proof. unfold lift. now rewrite concat_map. Qed.

Lemma np_mean_lift w :
  (0 < length (concat w))%nat -> np_mean (lift w) = Fin (rmean w).
Proof.
  intros H. unfold np_mean, size.
  rewrite concat_lift, fsum_map_Fin, length_map.
  rewrite fdiv_pos by (now apply lt_0_INR). reflexivity.
Qed.

Lemma arr_map_lift h g w :
  (forall x, h (Fin x) = Fin (g x)) ->
  arr_map h (lift w) = lift (map (map g) w).
Proof.
  intros H. unfold arr_map, lift. rewrite !map_map.
  apply map_ext. intros r. rewrite !map_map. apply map_ext. intros x. apply H.
Qed.

Lemma length_concat_map_map {A B : Type} (g : A -> B) (w : list (list A)) :
  length (concat (map (map g) w)) = length (concat w).
Proof. now rewrite <- concat_map, length_map. Qed.

Lemma rsum_squares_nonneg (g : R -> R) l :
  0 <= rsum (map (fun x => g x * g x) l).
Proof.
  induction l as [|x l IH]; cbn [map rsum fold_right]; [lra|].
  fold (rsum (map (fun x => g x * g x) l)). nra.
Qed.

Lemma rvar_nonneg w : 0 <= rvar w.
Proof.
  unfold rvar, rmean at 1.
  rewrite <- concat_map, length_map.
  pose proof (rsum_squares_nonneg (fun x => x + - rmean w) (concat w)) as Hs.
  destruct (length (concat w)) as [|k].
  - cbn [INR]. unfold Rdiv. rewrite Rinv_0. lra.
  - apply Rmult_le_pos; [assumption|].
    left. apply Rinv_0_lt_compat, lt_0_INR. lia.
Qed.

Lemma np_std_lift w :
  (0 < length (concat w))%nat -> np_std (lift w) = Fin (sqrt (rvar w)).
Proof.
  intros H. unfold np_std. rewrite (np_mean_lift w H).
  rewrite (arr_map_lift _ (fun x => (x + - rmean w) * (x + - rmean w)))
    by reflexivity.
  rewrite np_mean_lift by (now rewrite length_concat_map_map).
  apply fsqrt_nonneg, rvar_nonneg.
Qed.

End Statistics.

(** * A 3 x 3 grid and two cells *)

Section Grid3.

Lemma rmean_ramp3 : rmean ramp3 = 20.
Proof.
  unfold rmean, ramp3. cbn [concat app rsum fold_right length INR]. field.
Qed.

Lemma rvar_ramp3 : rvar ramp3 = 800 / 3.
Proof.
  unfold rvar. rewrite rmean_ramp3.
  unfold rmean, ramp3. cbn [map concat app rsum fold_right length INR]. field.
Qed.

Lemma np_std_dem3 : np_std dem3 = Fin (sqrt (800 / 3)).
Proof.
  unfold dem3. rewrite np_std_lift by (cbn; lia). now rewrite rvar_ramp3.
Qed.

(** Both windows around the middle cell are the whole grid. *)
Lemma small_window_dem3 :
  getitem2 dem3 (Some (1 - 12), Some (1 + 13))%Z (Some (1 - 12), Some (1 + 13))%Z
  = dem3.
Proof. reflexivity. Qed.

Lemma subset_array_dem3 : subset_array dem3 (array_coords cell_in) = dem3.
Proof. reflexivity. Qed.

(** The three attributes computed over the whole grid are finite. *)
Lemma dem3_attributes :
  exists xi f : R,
    0 < xi /\ 0 < f <= 1 /\
    compute_mean_squared_slope dem3 delta_x = Ret (Fin (/ sqrt 2)) /\
    compute_typical_width (Fin (/ sqrt 2)) (np_std dem3) = Ret (Fin xi) /\
    compute_sky_view_factor (Fin (/ sqrt 2)) (Fin xi) L = Ret (Fin f).
Proof.
  pose proof sqrt2_pos as Hs.
  assert (Hi : 0 < / sqrt 2) by now apply Rinv_0_lt_compat.
  assert (Hsd : 0 < sqrt (800 / 3)) by (apply sqrt_lt_R0; lra).
  exists (sqrt (800 / 3) * sqrt 2 / / sqrt 2).
  assert (Hxi : 0 < sqrt (800 / 3) * sqrt 2 / / sqrt 2).
  { apply Rdiv_lt_0_compat; [|assumption]. now apply Rmult_lt_0_compat. }
  eexists. split; [exact Hxi|].
  split; [|split; [exact ramp3_slope|split]].
  3:{ unfold L. apply sky_view_factor_value; lra. }
  2:{ unfold compute_typical_width. rewrite np_std_dem3.
      rewrite (fsqrt_nonneg 2) by lra. cbn [fmul].
      now rewrite fdiv_pos. }
  pose proof (slope_factor_bounds (/ sqrt 2) Hi) as HA.
  pose proof (width_factor_bounds 2500 (sqrt (800 / 3) * sqrt 2 / / sqrt 2))
    as HE.
  set (A := 1 + - (1 / Rpower (1 + a * real_pow (/ sqrt 2) b) c)) in *.
  set (E := exp (- d * Rpower (2500 / (sqrt (800 / 3) * sqrt 2 / / sqrt 2)) (-2)))
    in *.
  split; nra.
Qed.

End Grid3.

(** * When the raster pass succeeds, and when it does not *)

Section RasterOutcome.

Lemma broadcastable_refl k : broadcastable k k = true.
Proof. unfold broadcastable. now rewrite Nat.eqb_refl. Qed.

Lemma raster_wrapper_success n m c_row dem F X nabla :
  shape n m dem -> shape n m F -> shape n m X -> shape n m nabla ->
  nonempty_block dem c_row = true ->
  exists F' X',
    downscaling_parameters_processing_wrapper c_row dem (PyArr F) (PyArr X) nabla
    = Ret (PyArr F', PyArr X') /\ shape n m F' /\ shape n m X'.
Proof.
  intros [Hdn Hdm] [HFn HFm] [HXn HXm] [Hnn Hnm] Hne.
  unfold nonempty_block in Hne. rewrite Hdn, Hdm in Hne. cbv zeta in Hne.
  apply andb_prop in Hne. destruct Hne as [Hr Hc].
  apply Nat.ltb_lt in Hr, Hc.
  rewrite raster_wrapper_value. cbv zeta.
  rewrite (subset_array_block nabla), Hnn, Hnm.
  set (rb := bounds n (block_rows (array_coords c_row))) in *.
  set (cb := bounds m (block_cols (array_coords c_row))) in *.
  rewrite size_build.
  destruct (Nat.eqb_spec ((snd rb - fst rb) * (snd cb - fst cb)) 0) as [E|_];
    [nia|].
  unfold setitem2. rewrite arr_map_build, nrows_build, ncols_build by lia.
  rewrite HXn, HXm. fold rb cb. rewrite !broadcastable_refl. cbn [andb].
  eexists. eexists. split; [reflexivity|]. split.
  - unfold setitem2_scalar. apply shape_build. now split.
  - rewrite <- HXn, <- HXm. apply shape_build. now split.
Qed.

Lemma raster_loop_success n m dem nabla cells :
  shape n m dem -> shape n m nabla ->
  Forall (fun c_row => nonempty_block dem c_row = true) cells ->
  forall F0 X0, shape n m F0 -> shape n m X0 ->
  exists F X,
    raster_loop dem nabla cells (PyArr F0) (PyArr X0) = Ret (PyArr F, PyArr X).
Proof.
  intros Hd Hn Hall. induction Hall as [|c0 rest Hc0 _ IH]; intros F0 X0 HF HX.
  - exists F0, X0. reflexivity.
  - destruct (raster_wrapper_success n m c0 dem F0 X0 nabla Hd HF HX Hn Hc0)
      as (F1 & X1 & W & HF1 & HX1).
    destruct (IH F1 X1 HF1 HX1) as (F & X & Hloop).
    exists F, X. cbn [raster_loop]. rewrite W. cbn [bind fst snd]. exact Hloop.
Qed.

(** On a grid of finite elevations of at least 3 x 3, a pass over cells
    whose sub-blocks all meet the grid ends with two rasters. *)
Lemma raster_mode_success n m w cells :
  rect n m w -> (3 <= n)%nat -> (3 <= m)%nat ->
  Forall (fun c_row => nonempty_block (lift w) c_row = true) cells ->
  exists F X, raster_mode (lift w) cells = Ret (PyArr F, PyArr X).
Proof.
  intros H Hn Hm Hall. unfold raster_mode.
  destruct (compute_elevation_laplacien (lift w) delta_x) as [nabla|e] eqn:EN.
  2:{ unfold delta_x in EN.
      rewrite (elevation_laplacien_value n m w 20 H Hn Hm) in EN by lra.
      discriminate. }
  cbn [bind].
  apply (raster_loop_success (nrows (lift w)) (ncols (lift w)) (lift w) nabla).
  - apply shape_self.
  - exact (elevation_laplacien_shape _ _ _ EN).
  - exact Hall.
  - apply shape_nan_array.
  - apply shape_nan_array.
Qed.

(** The wrapper returns two arrays or the pair of integers. *)
Lemma raster_wrapper_cases c_row dem F X nabla :
  downscaling_parameters_processing_wrapper c_row dem (PyArr F) (PyArr X) nabla
  = Ret (PyInt (-999), PyInt (-999)) \/
  exists F' X',
    downscaling_parameters_processing_wrapper c_row dem (PyArr F) (PyArr X) nabla
    = Ret (PyArr F', PyArr X').
Proof.
  rewrite raster_wrapper_value. cbv zeta.
  destruct (size _ =? 0)%nat; [now left|].
  destruct (setitem2 _ _ _ _); [right; eauto|now left].
Qed.

(** A cell whose window of the Laplacian is empty leaves both names bound to
    the integer -999 at the end of the loop, whatever cells come before and
    after it. *)
Lemma raster_loop_failure dem nabla pre c_row post :
  size (subset_array nabla (array_coords c_row)) = 0%nat ->
  forall F0 X0,
    raster_loop dem nabla (pre ++ c_row :: post) (PyArr F0) (PyArr X0)
    = Ret (PyInt (-999), PyInt (-999)).
Proof.
  intros Hempty. induction pre as [|c0 pre IH]; intros F0 X0.
  - cbn [app raster_loop].
    rewrite (raster_wrapper_empty_window _ _ _ _ _ Hempty). cbn [bind fst snd].
    destruct post as [|c1 post]; [reflexivity|apply raster_loop_int_nonempty].
  - cbn [app raster_loop].
    destruct (raster_wrapper_cases c0 dem F0 X0 nabla) as [W|(F1 & X1 & W)];
      rewrite W; cbn [bind fst snd].
    + destruct pre; apply raster_loop_int_nonempty.
    + apply IH.
Qed.

End RasterOutcome.

(** C1 (evaluation of the code at a failing input): on the 3 x 3 grid, the
    pass over the middle cell alone ends with two rasters, the sky view
    factor raster holding one finite value in (0, 1] at every pixel; the pass
    over the middle cell followed by a cell outside the grid ends with both
    raster names bound to the integer -999, and processing one more cell
    after the failure does not bring the rasters back. *)
Theorem failed_cell_discards_both_rasters :
  (exists (F X : array) (f : R),
      raster_mode dem3 [cell_in] = Ret (PyArr F, PyArr X) /\
      0 < f <= 1 /\
      forall i j, (i < 3)%nat -> (j < 3)%nat -> get F i j = Fin f) /\
  raster_mode dem3 [cell_in; cell_out] = Ret (PyInt (-999), PyInt (-999)) /\
  raster_mode dem3 [cell_in; cell_out; cell_in]
  = Ret (PyInt (-999), PyInt (-999)).
Proof.
  assert (EN : compute_elevation_laplacien dem3 delta_x
               = Ret (build 3 3
                        (fun i j =>
                           if in_bounds (1%nat, 2%nat) i && in_bounds (1%nat, 2%nat) j
                           then Fin (stencil ramp3 i j / (20 * 20) * 20 / 4)
                           else NaN))).
  { unfold dem3, delta_x.
    rewrite (elevation_laplacien_value 3 3 ramp3 20 (rect_3x3 _ _ _ _ _ _ _ _ _));
      [reflexivity|lia|lia|lra]. }
  split; [|split].
  - destruct (raster_mode_success 3 3 ramp3 [cell_in] (rect_3x3 _ _ _ _ _ _ _ _ _))
      as (F & X & HFX); [lia|lia|repeat constructor|].
    destruct dem3_attributes as (xi & f & Hxi & Hf & Emu & Exi & Ef).
    exists F, X, f. split; [exact HFX|]. split; [exact Hf|].
    intros i j Hi Hj.
    fold dem3 in HFX. unfold raster_mode in HFX. rewrite EN in HFX.
    cbn [bind] in HFX.
    match type of HFX with
    | raster_loop _ ?N _ _ _ = _ =>
        destruct (raster_loop_last_write 3 3 dem3 N
                    (shape_self dem3) (shape_build 3 3 dem3 _ (shape_self dem3))
                    _ _ _ _ _
                    (shape_nan_array dem3) (shape_nan_array dem3) HFX)
          as (_ & _ & Hpix)
    end.
    destruct (Hpix i j Hi Hj) as [Hlast _].
    destruct (Hlast [] cell_in [] eq_refl) as [PF _].
    + destruct i as [|[|[|i]]]; [| | |lia];
        (destruct j as [|[|[|j]]]; [| | |lia]); reflexivity.
    + intros c' [].
    + rewrite PF, subset_array_dem3. unfold F_sky_of, xi_of, mu_of.
      rewrite Emu, Exi, Ef. reflexivity.
  - unfold raster_mode. rewrite EN. cbn [bind].
    apply (raster_loop_failure dem3 _ [cell_in] cell_out []). reflexivity.
  - unfold raster_mode. rewrite EN. cbn [bind].
    apply (raster_loop_failure dem3 _ [cell_in] cell_out [cell_in]). reflexivity.
Qed.

Lemma last_write_wins_witness :
  exists F X : array,
    raster_mode dem3 ([] ++ cell_in :: [] ++ cell_corner :: [])
    = Ret (PyArr F, PyArr X) /\
    exists nabla mu xi,
      compute_elevation_laplacien dem3 delta_x = Ret nabla /\
      compute_mean_squared_slope (subset_array dem3 (array_coords cell_corner))
                                 delta_x = Ret mu /\
      compute_typical_width mu (np_std dem3) = Ret xi /\
      compute_sky_view_factor mu xi L = Ret (get F 1 1) /\
      compute_downscaling_factor (get nabla 1 1) mu = Ret (get X 1 1).
Proof.
  destruct (raster_mode_success 3 3 ramp3 [cell_in; cell_corner]
              (rect_3x3 _ _ _ _ _ _ _ _ _)) as (F & X & H);
    [lia|lia|repeat constructor|].
  exists F, X. split; [exact H|].
  apply (last_write_wins dem3 [] cell_in [] cell_corner [] F X 1 1 H).
  - reflexivity.
  - reflexivity.
  - intros c' [].
Defined.

(** * The attribute pass near the edges of the grid *)

Section AttributePass.

Lemma getitem2_truncated h dem center :
  (0 <= h)%Z ->
  (h <= fst center < Z.of_nat (nrows dem))%Z ->
  (h <= snd center < Z.of_nat (ncols dem))%Z ->
  getitem2 dem (rows_around h center) (cols_around h center)
  = truncated_window h dem center.
Proof.
  intros Hh Hr Hc. unfold getitem2, truncated_window, bounds, rows_around,
    cols_around. cbn [fst snd]. cbv zeta.
  rewrite !norm_index_pos by lia.
  replace (Nat.min (Z.to_nat (fst center - h)) (nrows dem))
    with (Z.to_nat (fst center - h)) by lia.
  replace (Nat.min (Z.to_nat (snd center - h)) (ncols dem))
    with (Z.to_nat (snd center - h)) by lia.
  reflexivity.
Qed.


End AttributePass.

Lemma subset_array_truncated A center :
  (62 <= fst center < Z.of_nat (nrows A))%Z ->
  (62 <= snd center < Z.of_nat (ncols A))%Z ->
  subset_array A center = truncated_window 62 A center.
Proof.
  intros Hr Hc. rewrite <- getitem2_truncated by lia. reflexivity.
Qed.

Section EdgeCell.

Lemma rget_table n m (g : nat -> nat -> R) i j :
  (i < n)%nat -> (j < m)%nat ->
  rget (map (fun i => map (g i) (seq 0 m)) (seq 0 n)) i j = g i j.
Proof.
  intros Hi Hj. unfold rget.
  rewrite (nth_indep _ [] (map (g 0%nat) (seq 0 m)))
    by now rewrite length_map, length_seq.
  rewrite (map_nth (fun i => map (g i) (seq 0 m)) (seq 0 n) 0%nat i).
  rewrite seq_nth by assumption. cbn [Nat.add].
  rewrite (nth_indep _ 0 (g i 0%nat)) by now rewrite length_map, length_seq.
  rewrite (map_nth (g i) (seq 0 m) 0%nat j).
  now rewrite seq_nth.
Qed.

Lemma rect_table n m (g : nat -> nat -> R) :
  rect n m (map (fun i => map (g i) (seq 0 m)) (seq 0 n)).
Proof.
  split; [now rewrite length_map, length_seq|].
  apply Forall_map, Forall_forall. intros i _.
  now rewrite length_map, length_seq.
Qed.


Lemma edge_window_is_grid :
  truncated_window 12 dem_edge (array_coords cell_edge) = dem_edge.
Proof. reflexivity. Qed.

End EdgeCell.


(** * Three cells over one pixel *)

Section ThreeCells.

Lemma rect_kink4 : rect 4 3 kink4.
Proof. split; [reflexivity|]. repeat constructor. Qed.

Lemma subset_north : subset_array dem4 (array_coords cell_north) = dem3.
Proof. reflexivity. Qed.

Lemma subset_south :
  subset_array dem4 (array_coords cell_south)
  = lift [[40; 40; 40]; [140; 140; 140]].
Proof. reflexivity. Qed.

Lemma mu_north : mu_of (subset_array dem4 (array_coords cell_north)) = Fin (/ sqrt 2).
Proof.
  rewrite subset_north. unfold mu_of, dem3, delta_x. now rewrite ramp3_slope.
Qed.

Lemma mu_south :
  mu_of (subset_array dem4 (array_coords cell_south)) = Fin (5 / sqrt 2).
Proof.
  pose proof sqrt2_pos as Hs.
  rewrite subset_south. unfold mu_of, delta_x.
  rewrite (mean_squared_slope_uniform 2 3 _ 20 (100 * 100)).
  - rewrite sqrt_square by lra. f_equal. field. lra.
  - split; [reflexivity|]. repeat constructor.
  - lia.
  - lia.
  - lra.
  - intros i j Hi Hj. unfold rget.
    destruct i as [|i]; [|lia].
    destruct j as [|[|j]]; [| |lia]; cbn; ring.
Qed.

Lemma Rpower_1_l y : Rpower 1 y = 1.
Proof. unfold Rpower. rewrite ln_1, Rmult_0_r. apply exp_0. Qed.

(** The downscaling factor at a Laplacian of 1 decreases strictly with the
    slope. *)
Lemma downscaling_factor_at_1_decreasing mu1 mu2 :
  0 < mu1 < mu2 ->
  X_dsc_topo_of (Fin mu1) (Fin 1) <> X_dsc_topo_of (Fin mu2) (Fin 1).
Proof.
  intros [H1 H12]. unfold X_dsc_topo_of.
  rewrite !downscaling_factor_value by lra.
  intros Heq. injection Heq as Heq.
  assert (Ha : 0 < a_prime) by (unfold a_prime; lra).
  assert (Hc : 0 < c_prime) by (unfold c_prime; lra).
  assert (Hd : 0 < d_prime) by (unfold d_prime; lra).
  assert (He : 0 < e_prime) by (unfold e_prime; lra).
  assert (Hp : real_pow (Rabs 1) b_prime = 1).
  { rewrite Rabs_R1. unfold real_pow.
    destruct (Req_dec_T 1 0); [lra|apply Rpower_1_l]. }
  rewrite Hp in Heq.
  assert (Hq : real_pow mu1 e_prime < real_pow mu2 e_prime).
  { unfold real_pow. destruct (Req_dec_T mu1 0); [lra|].
    destruct (Req_dec_T mu2 0); [lra|]. apply Rlt_Rpower_l; lra. }
  pose proof (real_pow_pos mu1 e_prime H1) as Hq1.
  set (q1 := real_pow mu1 e_prime) in *.
  set (q2 := real_pow mu2 e_prime) in *.
  assert (HN : 0 < (1 + - (a_prime * 1 / (1 + a_prime * 1))) * c_prime).
  { apply Rmult_lt_0_compat; [|assumption].
    replace (1 + - (a_prime * 1 / (1 + a_prime * 1))) with (/ (1 + a_prime))
      by (field; lra).
    apply Rinv_0_lt_compat. lra. }
  set (N := (1 + - (a_prime * 1 / (1 + a_prime * 1))) * c_prime) in *.
  assert (Hlt : N / (1 + d_prime + q2) < N / (1 + d_prime + q1)).
  { unfold Rdiv. apply Rmult_lt_compat_l; [assumption|].
    apply Rinv_lt_contravar; [|lra]. apply Rmult_lt_0_compat; lra. }
  lra.
Qed.

End ThreeCells.

(** C4 (as stated) fails: on the 4 x 3 grid three cells are processed in
    order, each successfully; pixel (2, 1) lies in the sub-blocks of the
    first and of the second, and also in that of the third. In the final
    [X_array] the pixel does not hold the value of the second cell (the later
    of the first two): the third cell has overwritten it. *)
Lemma third_cell_overwrites_overlap :
  exists (F X nabla : array) (mu2 : fval),
    raster_mode dem4 [cell_all; cell_north; cell_south] = Ret (PyArr F, PyArr X) /\
    covers dem4 cell_all 2 1 = true /\
    covers dem4 cell_north 2 1 = true /\
    compute_elevation_laplacien dem4 delta_x = Ret nabla /\
    compute_mean_squared_slope (subset_array dem4 (array_coords cell_north))
                               delta_x = Ret mu2 /\
    compute_downscaling_factor (get nabla 2 1) mu2 <> Ret (get X 2 1).
Proof.
  pose proof sqrt2_pos as Hs.
  destruct (raster_mode_success 4 3 kink4 [cell_all; cell_north; cell_south]
              rect_kink4) as (F & X & HFX); [lia|lia|repeat constructor|].
  fold dem4 in HFX.
  assert (EN : compute_elevation_laplacien dem4 delta_x
               = Ret (build 4 3
                        (fun i j =>
                           if in_bounds (1%nat, 3%nat) i && in_bounds (1%nat, 2%nat) j
                           then Fin (stencil kink4 i j / (20 * 20) * 20 / 4)
                           else NaN))).
  { unfold dem4, delta_x.
    rewrite (elevation_laplacien_value 4 3 kink4 20 rect_kink4);
      [reflexivity|lia|lia|lra]. }
  eexists F, X, _, (mu_of (subset_array dem4 (array_coords cell_north))).
  split; [exact HFX|]. split; [reflexivity|]. split; [reflexivity|].
  split; [exact EN|]. split; [reflexivity|].
  unfold raster_mode in HFX. rewrite EN in HFX. cbn [bind] in HFX.
  match type of HFX with
  | raster_loop _ ?N _ _ _ = _ =>
      destruct (raster_loop_last_write 4 3 dem4 N
                  (shape_self dem4) (shape_build 4 3 dem4 _ (shape_self dem4))
                  _ _ _ _ _
                  (shape_nan_array dem4) (shape_nan_array dem4) HFX)
        as (_ & _ & Hpix)
  end.
  destruct (Hpix 2%nat 1%nat ltac:(lia) ltac:(lia)) as [Hlast _].
  destruct (Hlast [cell_all; cell_north] cell_south [] eq_refl eq_refl)
    as [_ PX]; [intros c' []|].
  rewrite PX. rewrite get_build by lia.
  change (in_bounds (1%nat, 3%nat) 2 && in_bounds (1%nat, 2%nat) 1) with true.
  cbv iota.
  replace (stencil kink4 2 1 / (20 * 20) * 20 / 4) with 1
    by (unfold stencil, rget, kink4; cbn [Nat.sub Nat.add nth]; field).
  rewrite downscaling_factor_returns, mu_north, mu_south.
  intros Heq. injection Heq as Heq.
  assert (Hi : 0 < / sqrt 2) by now apply Rinv_0_lt_compat.
  apply (downscaling_factor_at_1_decreasing (/ sqrt 2) (5 / sqrt 2));
    [|exact Heq].
  unfold Rdiv. lra.
Qed.

(** * Cells near the top or left edge of a grid at least as large as the window

    The slice start [r - h] is negative and counts from the end of the
    array: the window has no row (or no column). *)

Section TopEdge.

Lemma slice_wraps_empty len h k :
  (0 <= k < h)%Z -> (2 * h + 1 <= Z.of_nat len)%Z ->
  (norm_index len (k + (h + 1)) <= norm_index len (k - h))%nat.
Proof.
  intros Hk Hlen. apply Nat2Z.inj_le. rewrite !norm_index_Z.
  destruct (Z.ltb_spec (k - h) 0), (Z.ltb_spec (k + (h + 1)) 0); lia.
Qed.

Lemma ncols_build_0 p f : ncols (build p 0 f) = 0%nat.
Proof. destruct p; reflexivity. Qed.

Lemma np_mean_empty A : size A = 0%nat -> np_mean A = NaN.
Proof.
  intros H. unfold np_mean. rewrite H. unfold size in H.
  apply length_zero_iff_nil in H. rewrite H. cbn [fsum fold_right INR].
  apply fdiv_zero_zero.
Qed.

(** The slope of a window without columns is [nan]: the mean of an empty
    array. *)
Lemma mean_squared_slope_no_columns A dx :
  ncols A = 0%nat -> compute_mean_squared_slope A dx = Ret NaN.
Proof.
  intros H. unfold compute_mean_squared_slope. cbn [convolve2d bind].
  rewrite np_mean_empty; [reflexivity|].
  unfold arr_add. rewrite size_build.
  assert (Hm : ncols (np_square (getitem2 (conv_same A kernel_1)
                                          (Some 1%Z, None) (None, Some (-1)%Z)))
               = 0%nat).
  { unfold np_square, getitem2. rewrite arr_map_build.
    assert (Hc : ncols (conv_same A kernel_1) = 0%nat)
      by (unfold conv_same; rewrite H; apply ncols_build_0).
    rewrite Hc. unfold bounds. cbn [fst snd]. rewrite norm_index_m1.
    apply ncols_build_0. }
  rewrite Hm. lia.
Qed.

Lemma sky_view_factor_nan L0 : compute_sky_view_factor NaN NaN L0 = Ret NaN.
Proof.
  unfold compute_sky_view_factor.
  assert (Hb : fpow NaN b = NaN).
  { unfold fpow. rewrite Rsign_pos by (unfold b; lra). reflexivity. }
  assert (Hc : fpow NaN c = NaN).
  { unfold fpow. rewrite Rsign_pos by (unfold c; lra). reflexivity. }
  assert (H2 : fpow NaN (-2) = NaN).
  { unfold fpow. rewrite Rsign_neg by lra. reflexivity. }
  rewrite Hb. cbn [fmul fsign fadd]. rewrite Hc.
  replace (fdiv L0 NaN) with NaN by (destruct L0; reflexivity).
  rewrite H2. reflexivity.
Qed.

(** In the attribute pass such a cell gets the no-data row: every statistic
    of the empty window is [nan]. *)
Lemma attribute_near_edge_no_data_row dem c_row :
  (0 <= fst (array_coords c_row) < 12 /\ 25 <= Z.of_nat (nrows dem))%Z \/
  (0 <= snd (array_coords c_row) < 12 /\ 25 <= Z.of_nat (ncols dem))%Z ->
  sky_view_factor_processing_wrapper dem c_row
  = Ret (set_params c_row NaN NaN NaN).
Proof.
  intros Hedge. unfold sky_view_factor_processing_wrapper. cbv zeta.
  rewrite mean_squared_slope_no_columns.
  - cbn [bind]. unfold compute_typical_width.
    replace (fdiv (fmul (np_std dem) (fsqrt (Fin 2))) NaN) with NaN
      by (destruct (fmul (np_std dem) (fsqrt (Fin 2))); reflexivity).
    cbn [bind]. rewrite sky_view_factor_nan. reflexivity.
  - unfold getitem2, bounds. cbn [fst snd].
    destruct Hedge as [[Hr Hn]|[Hc Hm]].
    + pose proof (slice_wraps_empty (nrows dem) 12 _ Hr ltac:(lia)) as Hb.
      change (12 + 1)%Z with 13%Z in Hb.
      replace (norm_index (nrows dem) (fst (array_coords c_row) + 13)
               - norm_index (nrows dem) (fst (array_coords c_row) - 12))%nat
        with 0%nat by lia.
      reflexivity.
    + pose proof (slice_wraps_empty (ncols dem) 12 _ Hc ltac:(lia)) as Hb.
      change (12 + 1)%Z with 13%Z in Hb.
      replace (norm_index (ncols dem) (snd (array_coords c_row) + 13)
               - norm_index (ncols dem) (snd (array_coords c_row) - 12))%nat
        with 0%nat by lia.
      apply ncols_build_0.
Qed.

(** In the raster pass the co-located window of the Laplacian of such a cell
    is empty, so the cell takes the [except] branch of the wrapper. *)
Lemma raster_top_edge_window_empty n m nabla center :
  shape n m nabla -> (125 <= n)%nat -> (0 <= fst center < 62)%Z ->
  size (subset_array nabla center) = 0%nat.
Proof.
  intros [Hn Hm] Hlen Hr. rewrite subset_array_block, size_build, Hn.
  pose proof (slice_wraps_empty n 62 _ Hr ltac:(lia)) as Hb.
  unfold block_rows, rows_around, bounds. cbn [fst snd].
  replace (norm_index n (fst center + (62 + 1)) - norm_index n (fst center - 62))%nat
    with 0%nat by lia.
  reflexivity.
Qed.

End TopEdge.



(** * Further properties of the mean squared slope *)

Section SlopeValue.

Lemma lift_table n m g : lift (table n m g) = build n m (fun i j => Fin (g i j)).
Proof.
  unfold lift, table, build. rewrite map_map. apply map_ext. intros i.
  now rewrite map_map.
Qed.

Lemma rect_table' n m g : rect n m (table n m g).
Proof. apply rect_table. Qed.

Lemma table_ext n m f g :
  (forall i j, (i < n)%nat -> (j < m)%nat -> f i j = g i j) ->
  table n m f = table n m g.
Proof.
  intros H. unfold table. apply map_ext_in. intros i Hi.
  apply map_ext_in. intros j Hj. apply in_seq in Hi, Hj. apply H; lia.
Qed.

Lemma length_concat_table n m g : length (concat (table n m g)) = (n * m)%nat.
Proof.
  unfold table.
  assert (H : forall l : list nat,
             length (concat (map (fun i => map (g i) (seq 0 m)) l))
             = (length l * m)%nat).
  { induction l as [|x l IH]; cbn; [reflexivity|].
    now rewrite length_app, length_map, length_seq, IH. }
  now rewrite H, length_seq.
Qed.

Lemma rsum_app l1 l2 : rsum (l1 ++ l2) = rsum l1 + rsum l2.
Proof.
  unfold rsum. induction l1 as [|x l1 IH]; cbn [app fold_right]; [lra|].
  rewrite IH. lra.
Qed.

Lemma rsum_nonneg l : Forall (fun x => 0 <= x) l -> 0 <= rsum l.
Proof.
  unfold rsum. induction 1 as [|x l Hx _ IH]; cbn [fold_right]; lra.
Qed.

Lemma rsum_nonneg_zero l :
  Forall (fun x => 0 <= x) l -> rsum l = 0 -> Forall (fun x => x = 0) l.
Proof.
  induction 1 as [|x l Hx Hl IH]; intros Hs; [constructor|].
  pose proof (rsum_nonneg l Hl) as Hl0.
  unfold rsum in Hs, Hl0, IH. cbn [fold_right] in Hs.
  constructor; [lra|]. apply IH. lra.
Qed.

Lemma rsum_scale k l : rsum (map (fun x => k * x) l) = k * rsum l.
Proof.
  unfold rsum. induction l as [|x l IH]; cbn [map fold_right]; [lra|].
  rewrite IH. lra.
Qed.

Lemma In_concat_table n m g x :
  In x (concat (table n m g)) ->
  exists i j, (i < n)%nat /\ (j < m)%nat /\ x = g i j.
Proof.
  intros H. apply in_concat in H. destruct H as (row & Hrow & Hx).
  unfold table in Hrow. apply in_map_iff in Hrow.
  destruct Hrow as (i & <- & Hi). apply in_map_iff in Hx.
  destruct Hx as (j & <- & Hj). apply in_seq in Hi, Hj.
  exists i, j. repeat split; lia.
Qed.

Lemma In_table_concat n m g i j :
  (i < n)%nat -> (j < m)%nat -> In (g i j) (concat (table n m g)).
Proof.
  intros Hi Hj. apply in_concat. exists (map (g i) (seq 0 m)). split.
  - unfold table. apply in_map_iff. exists i. split; [reflexivity|].
    apply in_seq. lia.
  - apply in_map_iff. exists j. split; [reflexivity|]. apply in_seq. lia.
Qed.

Lemma sq_grad_nonneg w i j : 0 <= sq_grad w i j.
Proof.
  assert (Hsq : forall x y : R, 0 <= x * x + y * y) by (intros; nra).
  unfold sq_grad. apply Hsq.
Qed.

Lemma rmean_table_nonneg n m g :
  (forall i j, 0 <= g i j) -> 0 <= rmean (table n m g).
Proof.
  intros Hg. unfold rmean.
  assert (Hs : 0 <= rsum (concat (table n m g))).
  { apply rsum_nonneg, Forall_forall. intros x Hx.
    apply In_concat_table in Hx. destruct Hx as (i & j & _ & _ & ->).
    apply Hg. }
  destruct (length (concat (table n m g))) as [|k].
  - cbn [INR]. unfold Rdiv. rewrite Rinv_0. lra.
  - apply Rmult_le_pos; [assumption|].
    left. apply Rinv_0_lt_compat, lt_0_INR. lia.
Qed.

(** The mean squared slope of a window of finite elevations, in closed
    form. *)
Lemma mean_squared_slope_value n m w dx :
  rect n m w -> (2 <= n)%nat -> (2 <= m)%nat -> 0 < dx ->
  compute_mean_squared_slope (lift w) (Fin dx)
  = Ret (Fin (sqrt (rmean (table (n - 1) (m - 1) (sq_grad w)))
              / (dx * sqrt 2))).
Proof.
  intros H Hn Hm Hdx.
  unfold compute_mean_squared_slope. cbn [convolve2d bind].
  rewrite (member_1_lift n m w H), (member_2_lift n m w H) by lia.
  unfold np_square. rewrite !arr_map_build.
  unfold arr_add. rewrite nrows_build, ncols_build by lia.
  rewrite (build_ext _ _ _ (fun i j => Fin (sq_grad w i j))).
  2:{ intros i j Hi Hj. rewrite !get_build by assumption. reflexivity. }
  rewrite <- lift_table.
  rewrite np_mean_lift by (rewrite length_concat_table; nia).
  rewrite fsqrt_nonneg by (apply rmean_table_nonneg, sq_grad_nonneg).
  rewrite (fsqrt_nonneg 2) by lra. cbn [fmul].
  pose proof sqrt2_pos. rewrite fdiv_pos by nra. reflexivity.
Qed.

End SlopeValue.

Section SlopeProperties.

Lemma rmean_table_scale n m k g :
  rmean (table n m (fun i j => k * g i j)) = k * rmean (table n m g).
Proof.
  unfold rmean. rewrite !length_concat_table.
  replace (table n m (fun i j => k * g i j))
    with (map (map (fun x => k * x)) (table n m g)).
  - rewrite <- concat_map, rsum_scale. unfold Rdiv. ring.
  - unfold table. rewrite map_map. apply map_ext. intros i.
    now rewrite map_map.
Qed.

Lemma rmean_table_zero n m g :
  (0 < n)%nat -> (0 < m)%nat -> (forall i j, 0 <= g i j) ->
  rmean (table n m g) = 0 ->
  forall i j, (i < n)%nat -> (j < m)%nat -> g i j = 0.
Proof.
  intros Hn Hm Hg H0 i j Hi Hj. unfold rmean in H0.
  rewrite length_concat_table in H0.
  assert (HN : 0 < INR (n * m)) by (apply lt_0_INR; nia).
  assert (Hs : rsum (concat (table n m g)) = 0).
  { apply (Rmult_eq_reg_r (/ INR (n * m))).
    - unfold Rdiv in H0. rewrite H0. ring.
    - apply Rinv_neq_0_compat. lra. }
  assert (Hall : Forall (fun x => 0 <= x) (concat (table n m g))).
  { apply Forall_forall. intros x Hx. apply In_concat_table in Hx.
    destruct Hx as (i' & j' & _ & _ & ->). apply Hg. }
  pose proof (rsum_nonneg_zero _ Hall Hs) as Hz.
  rewrite Forall_forall in Hz. apply Hz. now apply In_table_concat.
Qed.

Lemma rget_scale n m k w i j :
  rect n m w -> (i < n)%nat -> (j < m)%nat ->
  rget (scale_window k w) i j = k * rget w i j.
Proof.
  intros H Hi Hj. unfold rget, scale_window.
  pose proof (rect_row n m w i [] H Hi) as Hlen.
  rewrite (nth_indep _ [] (map (fun x => k * x) []))
    by (rewrite length_map; destruct H; lia).
  rewrite (map_nth (map (fun x => k * x)) w [] i).
  rewrite (nth_indep _ 0 (k * 0)) by (rewrite length_map; lia).
  now rewrite (map_nth (fun x => k * x) (nth i w []) 0 j).
Qed.

Lemma rect_scale n m k w : rect n m w -> rect n m (scale_window k w).
Proof.
  intros [Hn Hall]. split; unfold scale_window.
  - now rewrite length_map.
  - apply Forall_map. eapply Forall_impl; [|exact Hall].
    intros r Hr. cbn. now rewrite length_map.
Qed.

End SlopeProperties.

(** X1: on a window of finite elevations of at least 2 x 2 and for a
    positive cell size, [compute_mean_squared_slope] returns a finite,
    non-negative value, and that value is zero exactly when every forward
    difference retained after the cropping is zero. *)
Theorem mean_squared_slope_nonneg_zero_iff n m w dx :
  rect n m w -> (2 <= n)%nat -> (2 <= m)%nat -> 0 < dx ->
  exists v : R,
    compute_mean_squared_slope (lift w) (Fin dx) = Ret (Fin v) /\
    0 <= v /\
    (v = 0 <->
     forall i j, (i < n - 1)%nat -> (j < m - 1)%nat ->
       rget w (i + 1) j = rget w i j /\ rget w i (j + 1) = rget w i j).
Proof.
  intros H Hn Hm Hdx.
  pose proof sqrt2_pos as Hs.
  pose proof (rmean_table_nonneg (n - 1) (m - 1) (sq_grad w) (sq_grad_nonneg w))
    as Hmean.
  eexists. split; [apply (mean_squared_slope_value n m w dx H Hn Hm Hdx)|].
  assert (Hden : 0 < dx * sqrt 2) by nra.
  split.
  - apply Rmult_le_pos; [apply sqrt_pos|]. left. now apply Rinv_0_lt_compat.
  - split.
    + intros Hv i j Hi Hj.
      assert (Hsq : sqrt (rmean (table (n - 1) (m - 1) (sq_grad w))) = 0).
      { apply (Rmult_eq_reg_r (/ (dx * sqrt 2))).
        - unfold Rdiv in Hv. rewrite Hv. ring.
        - apply Rinv_neq_0_compat. lra. }
      apply sqrt_eq_0 in Hsq; [|assumption].
      pose proof (rmean_table_zero (n - 1) (m - 1) (sq_grad w)
                    ltac:(lia) ltac:(lia) (sq_grad_nonneg w) Hsq i j Hi Hj) as Hg.
      unfold sq_grad in Hg.
      assert (Hz : forall x y : R, x * x + y * y = 0 -> x = 0 /\ y = 0)
        by (intros x y Hxy; split; nra).
      apply Hz in Hg. lra.
    + intros Hflat.
      rewrite (table_ext _ _ (sq_grad w) (fun _ _ => 0 * 0)).
      2:{ intros i j Hi Hj. unfold sq_grad.
          destruct (Hflat i j Hi Hj) as [-> ->]. ring. }
      rewrite (rmean_table_scale (n - 1) (m - 1) 0 (fun _ _ => 0)).
      rewrite Rmult_0_l, sqrt_0. unfold Rdiv. ring.
Qed.

Lemma mean_squared_slope_nonneg_zero_iff_witness :
  exists v : R,
    compute_mean_squared_slope (lift ramp3) (Fin 20) = Ret (Fin v) /\
    0 <= v /\
    (v = 0 <->
     forall i j, (i < 3 - 1)%nat -> (j < 3 - 1)%nat ->
       rget ramp3 (i + 1) j = rget ramp3 i j /\
       rget ramp3 i (j + 1) = rget ramp3 i j).
Proof.
  apply (mean_squared_slope_nonneg_zero_iff 3 3 ramp3 20).
  - apply rect_3x3.
  - lia.
  - lia.
  - lra.
Defined.

(** X2: [compute_mean_squared_slope] never reads the last entry of the last
    row of its window: two windows of finite elevations that agree everywhere
    else have the same mean squared slope. *)
Theorem mean_squared_slope_ignores_corner n m w w' dx :
  rect n m w -> rect n m w' -> (2 <= n)%nat -> (2 <= m)%nat -> 0 < dx ->
  agree_off_corner n m w w' ->
  compute_mean_squared_slope (lift w) (Fin dx)
  = compute_mean_squared_slope (lift w') (Fin dx).
Proof.
  intros H H' Hn Hm Hdx Hagree.
  rewrite (mean_squared_slope_value n m w dx H Hn Hm Hdx).
  rewrite (mean_squared_slope_value n m w' dx H' Hn Hm Hdx).
  rewrite (table_ext _ _ (sq_grad w) (sq_grad w')); [reflexivity|].
  intros i j Hi Hj. unfold sq_grad.
  rewrite (Hagree (i + 1)%nat j), (Hagree i j), (Hagree i (j + 1)%nat) by lia.
  reflexivity.
Qed.

Lemma mean_squared_slope_ignores_corner_witness :
  compute_mean_squared_slope (lift flat3) (Fin 20)
  = compute_mean_squared_slope (lift [[5; 5; 5]; [5; 5; 5]; [5; 5; 1000]])
                               (Fin 20).
Proof.
  apply (mean_squared_slope_ignores_corner 3 3 flat3
           [[5; 5; 5]; [5; 5; 5]; [5; 5; 1000]] 20).
  - apply rect_3x3.
  - apply rect_3x3.
  - lia.
  - lia.
  - lra.
  - intros i j Hi Hj Hne. unfold rget, flat3.
    destruct i as [|[|[|i]]]; [| | |lia];
      (destruct j as [|[|[|j]]]; [| | |lia]); cbn; try reflexivity.
    lia.
Defined.

(** X3: multiplying every elevation of a window by [k] multiplies its mean
    squared slope by [|k|]; in particular the slope of a terrain and of its
    mirror image [-z] are equal. *)
Theorem mean_squared_slope_homogeneous n m w dx k v :
  rect n m w -> (2 <= n)%nat -> (2 <= m)%nat -> 0 < dx ->
  compute_mean_squared_slope (lift w) (Fin dx) = Ret (Fin v) ->
  compute_mean_squared_slope (lift (scale_window k w)) (Fin dx)
  = Ret (Fin (Rabs k * v)).
Proof.
  intros H Hn Hm Hdx Hv.
  rewrite (mean_squared_slope_value n m w dx H Hn Hm Hdx) in Hv.
  injection Hv as <-.
  rewrite (mean_squared_slope_value n m _ dx (rect_scale n m k w H) Hn Hm Hdx).
  rewrite (table_ext _ _ (sq_grad (scale_window k w))
             (fun i j => (k * k) * sq_grad w i j)).
  2:{ intros i j Hi Hj. unfold sq_grad.
      rewrite !(rget_scale n m k w) by (assumption || lia). ring. }
  rewrite rmean_table_scale.
  rewrite sqrt_mult_alt by nra.
  change (k * k) with (Rsqr k). rewrite sqrt_Rsqr_abs.
  do 2 f_equal. unfold Rdiv. ring.
Qed.

Lemma mean_squared_slope_homogeneous_witness :
  compute_mean_squared_slope (lift (scale_window (-1) ramp3)) (Fin 20)
  = Ret (Fin (Rabs (-1) * / sqrt 2)).
Proof.
  apply (mean_squared_slope_homogeneous 3 3 ramp3 20 (-1) (/ sqrt 2)).
  - apply rect_3x3.
  - lia.
  - lia.
  - lra.
  - exact ramp3_slope.
Defined.

(** * Further properties of the two formulas *)

Section FormulaProperties.

Lemma sky_view_factor_zero_slope_finite xi L0 :
  0 < xi -> 0 < L0 ->
  compute_sky_view_factor (Fin 0) (Fin xi) (Fin L0) = Ret (Fin 1).
Proof.
  intros Hxi HL. rewrite sky_view_factor_value by lra.
  do 2 f_equal. unfold real_pow.
  destruct (Req_dec_T 0 0) as [_|Hne]; [|lra].
  rewrite Rmult_0_r, Rplus_0_r, Rpower_1_l. unfold Rdiv. rewrite Rinv_1. ring.
Qed.

Lemma sky_view_factor_zero_slope_inf L0 :
  0 < L0 -> compute_sky_view_factor (Fin 0) PInf (Fin L0) = Ret (Fin 1).
Proof.
  intros HL. unfold compute_sky_view_factor.
  assert (Hb : 0 < b) by (unfold b; lra).
  assert (Hc : c <> 0) by (unfold c; lra).
  assert (Hd : 0 < d) by (unfold d; lra).
  rewrite (fpow_zero b Hb). cbn [fmul fadd].
  rewrite fpow_pos by (assumption || lra).
  rewrite fdiv_pos by apply Rpower_pos.
  cbn [fdiv]. unfold fpow at 1. rewrite (Rsign_neg (-2)) by lra.
  rewrite Rsign_zero. cbn [fneg fmul fsign].
  rewrite (Rsign_neg (- d)) by lra. cbn [sign_mul CompOpp inf_of fexp fsub fmul
                                          fneg fadd].
  do 2 f_equal. ring.
Qed.

Lemma slope_factor_increasing mu1 mu2 :
  0 < mu1 <= mu2 ->
  1 + - (1 / Rpower (1 + a * real_pow mu1 b) c)
  <= 1 + - (1 / Rpower (1 + a * real_pow mu2 b) c).
Proof.
  intros [H1 H12].
  assert (Ha : 0 < a) by (unfold a; lra).
  assert (Hb : 0 <= b) by (unfold b; lra).
  assert (Hc : 0 <= c) by (unfold c; lra).
  assert (Hp : real_pow mu1 b <= real_pow mu2 b).
  { unfold real_pow. destruct (Req_dec_T mu1 0); [lra|].
    destruct (Req_dec_T mu2 0); [lra|]. apply Rle_Rpower_l; lra. }
  pose proof (real_pow_pos mu1 b H1) as Hp1.
  pose proof (Rmult_lt_0_compat _ _ Ha Hp1) as Hap.
  assert (Hbase : 1 + a * real_pow mu1 b <= 1 + a * real_pow mu2 b).
  { apply Rplus_le_compat_l, Rmult_le_compat_l; lra. }
  assert (HP : Rpower (1 + a * real_pow mu1 b) c
               <= Rpower (1 + a * real_pow mu2 b) c)
    by (apply Rle_Rpower_l; lra).
  pose proof (Rpower_pos (1 + a * real_pow mu1 b) c) as HP1.
  assert (Hinv : / Rpower (1 + a * real_pow mu2 b) c
                 <= / Rpower (1 + a * real_pow mu1 b) c)
    by (apply Rinv_le_contravar; lra).
  unfold Rdiv. lra.
Qed.

Lemma downscaling_factor_nan mu : compute_downscaling_factor NaN mu = Ret NaN.
Proof.
  unfold compute_downscaling_factor. cbn [fabs].
  assert (Hb : fpow NaN b_prime = NaN).
  { unfold fpow. rewrite Rsign_pos by (unfold b_prime; lra). reflexivity. }
  rewrite Hb. reflexivity.
Qed.

End FormulaProperties.

(** X4: a flat window in a grid that is not flat gets the sky view factor 1:
    on a window of constant elevation of at least 2 x 2, with a positive cell
    size, a positive elevation standard deviation and a positive coarse cell
    size, the three functions chained as in the wrappers return slope 0,
    width [+inf] and sky view factor exactly 1. *)
Theorem flat_window_sky_view_factor_is_one n m z w dx sd L0 :
  rect n m w -> (2 <= n)%nat -> (2 <= m)%nat -> constant_window z w ->
  0 < dx -> 0 < sd -> 0 < L0 ->
  compute_mean_squared_slope (lift w) (Fin dx) = Ret (Fin 0) /\
  compute_typical_width (Fin 0) (Fin sd) = Ret PInf /\
  compute_sky_view_factor (Fin 0) PInf (Fin L0) = Ret (Fin 1).
Proof.
  intros H Hn Hm Hc Hdx Hsd HL. split; [|split].
  - rewrite (mean_squared_slope_uniform n m w dx 0 H Hn Hm Hdx).
    + rewrite sqrt_0. do 2 f_equal. unfold Rdiv. ring.
    + intros i j Hi Hj.
      rewrite !(constant_window_rget n m z w _ _ H Hc) by lia. ring.
  - unfold compute_typical_width. rewrite (fsqrt_nonneg 2) by lra. cbn [fmul].
    pose proof sqrt2_pos. rewrite fdiv_pos_zero by nra. reflexivity.
  - now apply sky_view_factor_zero_slope_inf.
Qed.

Lemma flat_window_sky_view_factor_is_one_witness :
  compute_mean_squared_slope (lift flat3) (Fin 20) = Ret (Fin 0) /\
  compute_typical_width (Fin 0) (Fin 7) = Ret PInf /\
  compute_sky_view_factor (Fin 0) PInf (Fin 2500) = Ret (Fin 1).
Proof.
  apply (flat_window_sky_view_factor_is_one 3 3 5 flat3 20 7 2500).
  - apply rect_3x3.
  - lia.
  - lia.
  - repeat constructor.
  - lra.
  - lra.
  - lra.
Defined.

(** X5: for a fixed positive width and coarse cell size,
    [compute_sky_view_factor] is non-increasing in the slope: steeper
    terrain never sees more sky. At slope 0 it is exactly 1. *)
Theorem sky_view_factor_decreasing_in_slope mu1 mu2 xi L0 :
  0 < mu1 <= mu2 -> 0 < xi -> 0 < L0 ->
  exists f1 f2 : R,
    compute_sky_view_factor (Fin mu1) (Fin xi) (Fin L0) = Ret (Fin f1) /\
    compute_sky_view_factor (Fin mu2) (Fin xi) (Fin L0) = Ret (Fin f2) /\
    f2 <= f1 /\
    compute_sky_view_factor (Fin 0) (Fin xi) (Fin L0) = Ret (Fin 1).
Proof.
  intros Hmu Hxi HL. eexists. eexists.
  split; [apply sky_view_factor_value; lra|].
  split; [apply sky_view_factor_value; lra|].
  split; [|now apply sky_view_factor_zero_slope_finite].
  pose proof (slope_factor_increasing mu1 mu2 Hmu) as HA.
  pose proof (width_factor_bounds L0 xi) as HE.
  set (A1 := 1 + - (1 / Rpower (1 + a * real_pow mu1 b) c)) in *.
  set (A2 := 1 + - (1 / Rpower (1 + a * real_pow mu2 b) c)) in *.
  set (E := exp (- d * Rpower (L0 / xi) (-2))) in *.
  nra.
Qed.

Lemma sky_view_factor_decreasing_in_slope_witness :
  exists f1 f2 : R,
    compute_sky_view_factor (Fin 1) (Fin 20) (Fin 2500) = Ret (Fin f1) /\
    compute_sky_view_factor (Fin 2) (Fin 20) (Fin 2500) = Ret (Fin f2) /\
    f2 <= f1 /\
    compute_sky_view_factor (Fin 0) (Fin 20) (Fin 2500) = Ret (Fin 1).
Proof. apply (sky_view_factor_decreasing_in_slope 1 2 20 2500); lra. Defined.

(** X6: for a non-negative slope, [compute_downscaling_factor] at a zero
    Laplacian is [c' / (1 + d' + mu^e')], which is positive and at most
    [c' / (1 + d')], below 1; a negative Laplacian gives a larger factor than
    that and a positive Laplacian a smaller one. *)
Theorem downscaling_factor_sign_of_laplacian lap mu :
  0 <= mu ->
  exists x0 x : R,
    compute_downscaling_factor (Fin 0) (Fin mu) = Ret (Fin x0) /\
    compute_downscaling_factor (Fin lap) (Fin mu) = Ret (Fin x) /\
    x0 = c_prime / (1 + d_prime + real_pow mu e_prime) /\
    0 < x0 <= c_prime / (1 + d_prime) /\ c_prime / (1 + d_prime) < 1 /\
    (lap < 0 -> x0 < x) /\ (0 < lap -> x < x0).
Proof.
  intros Hmu.
  assert (Ha : 0 < a_prime) by (unfold a_prime; lra).
  assert (Hc : 0 < c_prime) by (unfold c_prime; lra).
  assert (Hd : 0 < d_prime) by (unfold d_prime; lra).
  pose proof (real_pow_nonneg mu e_prime Hmu) as Hq.
  pose proof (real_pow_nonneg (Rabs lap) b_prime (Rabs_pos lap)) as Hp.
  set (q := real_pow mu e_prime) in *.
  set (p := real_pow (Rabs lap) b_prime) in *.
  assert (HD : 0 < 1 + d_prime + q) by lra.
  assert (Hx0 : 0 < c_prime / (1 + d_prime + q))
    by (apply Rdiv_lt_0_compat; lra).
  exists (c_prime / (1 + d_prime + q)),
    ((1 + - (a_prime * lap / (1 + a_prime * p))) * c_prime / (1 + d_prime + q)).
  split.
  { rewrite downscaling_factor_value by assumption. fold q.
    do 2 f_equal. unfold Rdiv. ring. }
  split; [now rewrite downscaling_factor_value by assumption|].
  split; [reflexivity|].
  split.
  { split; [assumption|]. unfold Rdiv. apply Rmult_le_compat_l; [lra|].
    apply Rinv_le_contravar; lra. }
  split; [unfold c_prime, d_prime; lra|].
  assert (Hden : 0 < 1 + a_prime * p) by nra.
  assert (Hi : 0 < / (1 + a_prime * p)) by now apply Rinv_0_lt_compat.
  assert (HiD : 0 < / (1 + d_prime + q)) by now apply Rinv_0_lt_compat.
  assert (Hk : 0 < c_prime * / (1 + d_prime + q))
    by now apply Rmult_lt_0_compat.
  replace ((1 + - (a_prime * lap / (1 + a_prime * p))) * c_prime
           / (1 + d_prime + q))
    with (c_prime / (1 + d_prime + q)
          - lap * (a_prime * / (1 + a_prime * p)
                   * (c_prime * / (1 + d_prime + q))))
    by (unfold Rdiv; ring).
  assert (Hpos : 0 < a_prime * / (1 + a_prime * p)
                     * (c_prime * / (1 + d_prime + q))).
  { apply Rmult_lt_0_compat; [|assumption]. now apply Rmult_lt_0_compat. }
  set (t := a_prime * / (1 + a_prime * p) * (c_prime * / (1 + d_prime + q)))
    in *.
  split; intros Hlap; nra.
Qed.

Lemma downscaling_factor_sign_of_laplacian_witness :
  exists x0 x : R,
    compute_downscaling_factor (Fin 0) (Fin 1) = Ret (Fin x0) /\
    compute_downscaling_factor (Fin (-1)) (Fin 1) = Ret (Fin x) /\
    x0 = c_prime / (1 + d_prime + real_pow 1 e_prime) /\
    0 < x0 <= c_prime / (1 + d_prime) /\ c_prime / (1 + d_prime) < 1 /\
    (-1 < 0 -> x0 < x) /\ (0 < -1 -> x < x0).
Proof. apply (downscaling_factor_sign_of_laplacian (-1) 1). lra. Defined.

(** * Further properties of the raster pass *)

Section RasterProperties.

Lemma get_nan_array n m i j :
  (i < n)%nat -> (j < m)%nat -> get (nan_array n m) i j = NaN.
Proof. intros Hi Hj. unfold nan_array. now rewrite get_build. Qed.

(** Either no cell of a list satisfies [P], or there is a last one. *)
Lemma last_such_cell (P : row -> bool) cells :
  (forall c', In c' cells -> P c' = false) \/
  exists pre c_row post,
    cells = pre ++ c_row :: post /\ P c_row = true /\
    forall c', In c' post -> P c' = false.
Proof.
  induction cells as [|c0 rest IH].
  - left. intros c' [].
  - destruct IH as [Hnone|(pre & c_row & post & -> & Hc & Hpost)].
    + destruct (P c0) eqn:E.
      * right. exists [], c0, rest. repeat split; assumption.
      * left. intros c' [<-|Hin]; [assumption|now apply Hnone].
    + right. exists (c0 :: pre), c_row, post. repeat split; assumption.
Qed.

Lemma empty_block_size n m dem nabla c_row :
  shape n m dem -> shape n m nabla ->
  nonempty_block dem c_row = false ->
  size (subset_array nabla (array_coords c_row)) = 0%nat.
Proof.
  intros [Hdn Hdm] [Hnn Hnm] Hne.
  unfold nonempty_block in Hne. cbv zeta in Hne. rewrite Hdn, Hdm in Hne.
  rewrite subset_array_block, size_build, Hnn, Hnm.
  apply andb_false_iff in Hne. destruct Hne as [Hr|Hc].
  - apply Nat.ltb_ge in Hr.
    replace (snd (bounds n (block_rows (array_coords c_row)))
             - fst (bounds n (block_rows (array_coords c_row))))%nat
      with 0%nat by lia.
    reflexivity.
  - apply Nat.ltb_ge in Hc.
    replace (snd (bounds m (block_cols (array_coords c_row)))
             - fst (bounds m (block_cols (array_coords c_row))))%nat
      with 0%nat by lia.
    lia.
Qed.

Lemma raster_mode_loop n m w cells :
  rect n m w -> (3 <= n)%nat -> (3 <= m)%nat ->
  exists nabla,
    compute_elevation_laplacien (lift w) delta_x = Ret nabla /\
    shape n m nabla /\ shape n m (lift w) /\
    (forall i j, (i < n)%nat -> (j < m)%nat -> on_border n m i j ->
       get nabla i j = NaN) /\
    raster_mode (lift w) cells
    = raster_loop (lift w) nabla cells (PyArr (nan_array n m))
                  (PyArr (nan_array n m)).
Proof.
  intros H Hn Hm.
  pose proof (rect_lift n m w H) as HL.
  assert (Hs : shape n m (lift w)).
  { split; [apply (nrows_rect n m _ HL)|apply (ncols_rect n m _ HL); lia]. }
  eexists. split.
  { unfold delta_x. apply (elevation_laplacien_value n m w 20 H Hn Hm). lra. }
  split.
  { split; [apply nrows_build|apply ncols_build; lia]. }
  split; [exact Hs|]. split.
  - intros i j Hi Hj Hb. rewrite get_build by assumption.
    destruct Hb as [Hb|[Hb|[Hb|Hb]]].
    + rewrite (in_bounds_false 1 (n - 1) i) by lia. reflexivity.
    + rewrite (in_bounds_false 1 (n - 1) i) by lia. reflexivity.
    + rewrite (in_bounds_false 1 (m - 1) j) by lia. now rewrite andb_false_r.
    + rewrite (in_bounds_false 1 (m - 1) j) by lia. now rewrite andb_false_r.
  - unfold raster_mode, delta_x.
    rewrite (elevation_laplacien_value n m w 20 H Hn Hm) by lra.
    cbn [bind]. destruct Hs as [-> ->]. reflexivity.
Qed.

End RasterProperties.

(** X7: a raster pass that ends with two rasters returns them in the shape
    of the DEM, and every pixel that lies in the sub-block of no cell is
    [nan] in both. *)
Theorem raster_uncovered_pixels_stay_nan dem cells F X :
  raster_mode dem cells = Ret (PyArr F, PyArr X) ->
  shape (nrows dem) (ncols dem) F /\ shape (nrows dem) (ncols dem) X /\
  forall i j, (i < nrows dem)%nat -> (j < ncols dem)%nat ->
    (forall c_row, In c_row cells -> covers dem c_row i j = false) ->
    get F i j = NaN /\ get X i j = NaN.
Proof.
  intros H. unfold raster_mode in H.
  destruct (compute_elevation_laplacien dem delta_x) as [nabla|e] eqn:EN;
    [|discriminate].
  cbn [bind] in H.
  destruct (raster_loop_last_write (nrows dem) (ncols dem) dem nabla
              (shape_self dem) (elevation_laplacien_shape _ _ _ EN) _ _ _ _ _
              (shape_nan_array dem) (shape_nan_array dem) H)
    as (HF & HX & Hpix).
  split; [assumption|]. split; [assumption|].
  intros i j Hi Hj Hnone. destruct (Hpix i j Hi Hj) as [_ Hkeep].
  destruct (Hkeep Hnone) as [-> ->].
  split; now apply get_nan_array.
Qed.

Lemma raster_uncovered_pixels_stay_nan_witness :
  exists F X : array,
    raster_mode dem4 [cell_south] = Ret (PyArr F, PyArr X) /\
    shape (nrows dem4) (ncols dem4) F /\ shape (nrows dem4) (ncols dem4) X /\
    forall i j, (i < nrows dem4)%nat -> (j < ncols dem4)%nat ->
      (forall c_row, In c_row [cell_south] -> covers dem4 c_row i j = false) ->
      get F i j = NaN /\ get X i j = NaN.
Proof.
  destruct (raster_mode_success 4 3 kink4 [cell_south] rect_kink4)
    as (F & X & H); [lia|lia|repeat constructor|].
  exists F, X. split; [exact H|].
  apply (raster_uncovered_pixels_stay_nan dem4 [cell_south] F X H).
Defined.

(** X8: on a grid of finite elevations of at least 3 x 3, a raster pass that
    ends with two rasters leaves [X_array] at [nan] on the whole one-pixel
    border of the grid, whether a cell covers the pixel or not: the
    downscaling factor of a [nan] Laplacian is [nan]. *)
Theorem raster_X_border_is_nan n m w cells F X i j :
  rect n m w -> (3 <= n)%nat -> (3 <= m)%nat ->
  raster_mode (lift w) cells = Ret (PyArr F, PyArr X) ->
  (i < n)%nat -> (j < m)%nat -> on_border n m i j ->
  get X i j = NaN.
Proof.
  intros H Hn Hm HFX Hi Hj Hb.
  destruct (raster_mode_loop n m w cells H Hn Hm)
    as (nabla & EN & HN & HD & Hnan & Hloop).
  rewrite Hloop in HFX.
  assert (Hs : shape n m (nan_array n m)).
  { split; [apply nrows_build|apply ncols_build; lia]. }
  destruct (raster_loop_last_write n m (lift w) nabla HD HN _ _ _ _ _ Hs Hs HFX)
    as (_ & _ & Hpix).
  destruct (Hpix i j Hi Hj) as [Hlast Hkeep].
  destruct (last_such_cell (fun c_row => covers (lift w) c_row i j) cells)
    as [Hnone|(pre & c_row & post & Hsplit & Hc & Hpost)].
  - destruct (Hkeep Hnone) as [_ ->]. now apply get_nan_array.
  - destruct (Hlast pre c_row post Hsplit Hc Hpost) as [_ ->].
    rewrite (Hnan i j Hi Hj Hb). unfold X_dsc_topo_of.
    now rewrite downscaling_factor_nan.
Qed.

Lemma raster_X_border_is_nan_witness :
  exists F X : array,
    raster_mode (lift ramp3) [cell_in] = Ret (PyArr F, PyArr X) /\
    get X 0 1 = NaN.
Proof.
  destruct (raster_mode_success 3 3 ramp3 [cell_in] (rect_3x3 _ _ _ _ _ _ _ _ _))
    as (F & X & H); [lia|lia|repeat constructor|].
  exists F, X. split; [exact H|].
  apply (raster_X_border_is_nan 3 3 ramp3 [cell_in] F X 0 1
           (rect_3x3 _ _ _ _ _ _ _ _ _)); [lia|lia|exact H|lia|lia|].
  left. reflexivity.
Defined.

(** X9: on a grid of finite elevations of at least 3 x 3 the raster pass
    never raises, and its outcome is decided by the sub-blocks alone: when
    the sub-block of every cell meets the grid the pass ends with two
    rasters, and when the sub-block of some cell misses the grid it ends with
    both names bound to the integer -999. *)
Theorem raster_pass_outcome n m w cells :
  rect n m w -> (3 <= n)%nat -> (3 <= m)%nat ->
  (Forall (fun c_row => nonempty_block (lift w) c_row = true) cells ->
   exists F X, raster_mode (lift w) cells = Ret (PyArr F, PyArr X)) /\
  (Exists (fun c_row => nonempty_block (lift w) c_row = false) cells ->
   raster_mode (lift w) cells = Ret (PyInt (-999), PyInt (-999))).
Proof.
  intros H Hn Hm. split.
  - intros Hall. now apply (raster_mode_success n m).
  - intros Hex. apply Exists_exists in Hex. destruct Hex as (c_row & Hin & Hc).
    apply in_split in Hin. destruct Hin as (pre & post & ->).
    destruct (raster_mode_loop n m w (pre ++ c_row :: post) H Hn Hm)
      as (nabla & EN & HN & HD & _ & ->).
    apply raster_loop_failure.
    exact (empty_block_size n m (lift w) nabla c_row HD HN Hc).
Qed.

Lemma raster_pass_outcome_witness :
  (Forall (fun c_row => nonempty_block (lift ramp3) c_row = true)
          [cell_in; cell_out] ->
   exists F X, raster_mode (lift ramp3) [cell_in; cell_out]
               = Ret (PyArr F, PyArr X)) /\
  (Exists (fun c_row => nonempty_block (lift ramp3) c_row = false)
          [cell_in; cell_out] ->
   raster_mode (lift ramp3) [cell_in; cell_out]
   = Ret (PyInt (-999), PyInt (-999))).
Proof.
  apply (raster_pass_outcome 3 3 ramp3 [cell_in; cell_out]).
  - apply rect_3x3.
  - lia.
  - lia.
Defined.

(** X10: on an array with fewer than 3 rows or fewer than 3 columns
    [compute_elevation_laplacien] raises [ValueError] (from the valid
    convolution, or from the assignment of its result into the interior of
    the padded array), and so does the raster pass, before any cell is
    processed. *)
Theorem elevation_laplacien_too_small A dx cells :
  (nrows A < 3)%nat \/ (ncols A < 3)%nat ->
  compute_elevation_laplacien A dx = Exc ValueError /\
  raster_mode A cells = Exc ValueError.
Proof.
  intros Hsmall.
  assert (E : forall dx', compute_elevation_laplacien A dx' = Exc ValueError).
  { intros dx'.
    unfold compute_elevation_laplacien, convolve2d, conv_valid, setitem2,
      nan_array.
    change (nrows laplacian_kernel) with 3%nat.
    change (ncols laplacian_kernel) with 3%nat.
    destruct (nrows A) as [|[|[|[|n]]]], (ncols A) as [|[|[|[|m]]]];
      solve [reflexivity | exfalso; lia]. }
  split; [apply E|]. unfold raster_mode. now rewrite E.
Qed.

Lemma elevation_laplacien_too_small_witness :
  compute_elevation_laplacien (lift [[1; 2]; [3; 4]]) (Fin 20) = Exc ValueError /\
  raster_mode (lift [[1; 2]; [3; 4]]) [cell_in] = Exc ValueError.
Proof.
  apply (elevation_laplacien_too_small (lift [[1; 2]; [3; 4]]) (Fin 20) [cell_in]).
  left. cbn. lia.
Defined.

Section BlockGeometry.

Lemma nonempty_block_clear n m dem c_row :
  shape n m dem -> in_grid n m c_row -> clear_of_top_left 62 c_row ->
  nonempty_block dem c_row = true.
Proof.
  intros [Hn Hm] [Hr Hc] [Hr62 Hc62].
  unfold nonempty_block. cbv zeta. rewrite Hn, Hm.
  unfold block_rows, block_cols, rows_around, cols_around, bounds.
  cbn [fst snd]. apply andb_true_intro.
  split; apply Nat.ltb_lt, Nat2Z.inj_lt; rewrite !norm_index_Z.
  - destruct (Z.ltb_spec (fst (array_coords c_row) - 62) 0),
      (Z.ltb_spec (fst (array_coords c_row) + (62 + 1)) 0); lia.
  - destruct (Z.ltb_spec (snd (array_coords c_row) - 62) 0),
      (Z.ltb_spec (snd (array_coords c_row) + (62 + 1)) 0); lia.
Qed.

Lemma nonempty_block_near_top_left n m dem c_row :
  shape n m dem -> (125 <= n)%nat -> (125 <= m)%nat ->
  in_grid n m c_row -> ~ clear_of_top_left 62 c_row ->
  nonempty_block dem c_row = false.
Proof.
  intros [Hn Hm] Hn125 Hm125 [Hr Hc] Hnear.
  unfold nonempty_block. cbv zeta. rewrite Hn, Hm.
  unfold block_rows, block_cols, rows_around, cols_around, bounds.
  cbn [fst snd]. apply andb_false_iff.
  unfold clear_of_top_left in Hnear.
  destruct (Z_lt_ge_dec (fst (array_coords c_row)) 62) as [Hlt|Hge].
  - left. apply Nat.ltb_ge.
    apply (slice_wraps_empty n 62 (fst (array_coords c_row))); lia.
  - right. apply Nat.ltb_ge.
    apply (slice_wraps_empty m 62 (snd (array_coords c_row))); lia.
Qed.

End BlockGeometry.

(** X11: on a grid of finite elevations of at least 125 x 125 and for cells
    whose centroid index lies in the grid, the raster pass ends with two
    rasters exactly when every cell is at least 62 cells from the top and
    left edges of the grid; as soon as one cell is closer than that to the
    top or left edge (its slice start is negative and wraps around to an
    empty window), the pass ends with both raster names bound to -999.
    Cells near the bottom or right edge do not make the pass fail. *)
Theorem raster_pass_fails_iff_near_top_left n m w cells :
  rect n m w -> (125 <= n)%nat -> (125 <= m)%nat ->
  Forall (in_grid n m) cells ->
  (Forall (clear_of_top_left 62) cells ->
   exists F X, raster_mode (lift w) cells = Ret (PyArr F, PyArr X)) /\
  (Exists (fun c_row => ~ clear_of_top_left 62 c_row) cells ->
   raster_mode (lift w) cells = Ret (PyInt (-999), PyInt (-999))).
Proof.
  intros H Hn Hm Hgrid.
  destruct (raster_mode_loop n m w cells H ltac:(lia) ltac:(lia))
    as (nabla & EN & HN & HD & _ & Hloop).
  rewrite Forall_forall in Hgrid. split.
  - intros Hclear. rewrite Forall_forall in Hclear.
    apply (raster_mode_success n m w cells H); [lia|lia|].
    apply Forall_forall. intros c_row Hin.
    apply (nonempty_block_clear n m); [assumption|now apply Hgrid|].
    now apply Hclear.
  - intros Hex. apply Exists_exists in Hex. destruct Hex as (c_row & Hin & Hc).
    pose proof (Hgrid c_row Hin) as Hg.
    apply in_split in Hin. destruct Hin as (pre & post & ->).
    rewrite Hloop. apply raster_loop_failure.
    apply (empty_block_size n m (lift w) nabla c_row HD HN).
    now apply (nonempty_block_near_top_left n m).
Qed.

Lemma raster_pass_fails_iff_near_top_left_witness :
  (Forall (clear_of_top_left 62) [cell_mid125; cell_top125] ->
   exists F X, raster_mode (lift flat125) [cell_mid125; cell_top125]
               = Ret (PyArr F, PyArr X)) /\
  (Exists (fun c_row => ~ clear_of_top_left 62 c_row)
          [cell_mid125; cell_top125] ->
   raster_mode (lift flat125) [cell_mid125; cell_top125]
   = Ret (PyInt (-999), PyInt (-999))).
Proof.
  apply (raster_pass_fails_iff_near_top_left 125 125 flat125
           [cell_mid125; cell_top125]).
  - apply rect_table.
  - lia.
  - lia.
  - repeat constructor; cbn; lia.
Defined.

(** X12: for a centre at least 62 cells from every edge of the array,
    [subset_array] returns a 125 x 125 array centred on it: entry [(i, j)]
    of the window is entry [(r - 62 + i, c - 62 + j)] of the array, and the
    entry [(62, 62)] is the centre itself. *)
Theorem subset_array_full_window n m A center :
  shape n m A ->
  (62 <= fst center)%Z -> (fst center + 63 <= Z.of_nat n)%Z ->
  (62 <= snd center)%Z -> (snd center + 63 <= Z.of_nat m)%Z ->
  shape 125 125 (subset_array A center) /\
  (forall i j, (i < 125)%nat -> (j < 125)%nat ->
     get (subset_array A center) i j
     = get A (Z.to_nat (fst center - 62) + i) (Z.to_nat (snd center - 62) + j)) /\
  get (subset_array A center) 62 62
  = get A (Z.to_nat (fst center)) (Z.to_nat (snd center)).
Proof.
  intros [Hn Hm] Hr1 Hr2 Hc1 Hc2.
  rewrite subset_array_truncated by lia.
  unfold truncated_window. cbv zeta. rewrite Hn, Hm.
  change (62 + 1)%Z with 63%Z.
  replace (Nat.min (Z.to_nat (fst center + 63)) n - Z.to_nat (fst center - 62))%nat
    with 125%nat by lia.
  replace (Nat.min (Z.to_nat (snd center + 63)) m - Z.to_nat (snd center - 62))%nat
    with 125%nat by lia.
  split; [split; [apply nrows_build|apply ncols_build; lia]|].
  split.
  - intros i j Hi Hj. now rewrite get_build.
  - rewrite get_build by lia. f_equal; lia.
Qed.

Lemma subset_array_full_window_witness :
  shape 125 125 (subset_array (lift flat125) (array_coords cell_mid125)) /\
  (forall i j, (i < 125)%nat -> (j < 125)%nat ->
     get (subset_array (lift flat125) (array_coords cell_mid125)) i j
     = get (lift flat125)
           (Z.to_nat (fst (array_coords cell_mid125) - 62) + i)
           (Z.to_nat (snd (array_coords cell_mid125) - 62) + j)) /\
  get (subset_array (lift flat125) (array_coords cell_mid125)) 62 62
  = get (lift flat125) (Z.to_nat (fst (array_coords cell_mid125)))
        (Z.to_nat (snd (array_coords cell_mid125))).
Proof.
  apply (subset_array_full_window 125 125 (lift flat125)
           (array_coords cell_mid125)).
  - pose proof (rect_lift 125 125 flat125 (rect_table 125 125 (fun _ _ => 0)))
      as HL.
    split; [apply (nrows_rect 125 125 _ HL)|apply (ncols_rect 125 125 _ HL); lia].
  - cbn. lia.
  - cbn. lia.
  - cbn. lia.
  - cbn. lia.
Defined.

(** * Further properties of the attribute pass *)

Section AttributeProperties.

Lemma rget_table_at n m g i j :
  (i < n)%nat -> (j < m)%nat -> rget (table n m g) i j = g i j.
Proof. apply rget_table. Qed.

Lemma attribute_wrapper_value dem c_row :
  sky_view_factor_processing_wrapper dem c_row
  = Ret (let win :=
           getitem2 dem
             (Some (fst (array_coords c_row) - 12),
              Some (fst (array_coords c_row) + 13))%Z
             (Some (snd (array_coords c_row) - 12),
              Some (snd (array_coords c_row) + 13))%Z in
         set_params c_row (mu_of win) (xi_of dem win) (F_sky_of dem win)).
Proof. reflexivity. Qed.

Lemma mapM_In {A B : Type} (f : A -> result B) l l' y :
  mapM f l = Ret l' -> In y l' -> exists x, In x l /\ f x = Ret y.
Proof.
  revert l'. induction l as [|a l IH]; intros l' H Hin.
  - cbn in H. injection H as <-. destruct Hin.
  - cbn [mapM] in H. destruct (f a) as [b0|e] eqn:Ea; [|discriminate].
    cbn [bind] in H. destruct (mapM f l) as [bs|e]; [|discriminate].
    cbn [bind] in H. injection H as <-. destruct Hin as [<-|Hin].
    + exists a. split; [now left|assumption].
    + destruct (IH bs eq_refl Hin) as (x & Hx & Hfx).
      exists x. split; [now right|assumption].
Qed.

Lemma attribute_mode_value dem cells :
  attribute_mode dem cells
  = Ret (map (fun c_row =>
                match sky_view_factor_processing_wrapper dem c_row with
                | Ret r => r
                | Exc _ => c_row
                end) cells).
Proof.
  unfold attribute_mode. induction cells as [|c0 rest IH]; [reflexivity|].
  cbn [mapM map]. rewrite IH. rewrite attribute_wrapper_value. reflexivity.
Qed.

Lemma rvar_zero_constant n m w :
  rect n m w -> (0 < n)%nat -> (0 < m)%nat -> rvar w = 0 ->
  forall i j, (i < n)%nat -> (j < m)%nat -> rget w i j = rmean w.
Proof.
  intros H Hn Hm Hv i j Hi Hj.
  assert (Hin : In (rget w i j) (concat w)).
  { apply in_concat. exists (nth i w []). split.
    - apply nth_In. destruct H. lia.
    - apply nth_In. rewrite (rect_row n m w i [] H Hi). lia. }
  assert (Hlen : (0 < length (concat w))%nat).
  { destruct (concat w); [destruct Hin|cbn; lia]. }
  unfold rvar, rmean at 1 in Hv.
  rewrite <- concat_map, length_map in Hv.
  assert (HN : 0 < INR (length (concat w))) by now apply lt_0_INR.
  assert (Hs : rsum (map (fun x => (x + - rmean w) * (x + - rmean w)) (concat w))
               = 0).
  { apply (Rmult_eq_reg_r (/ INR (length (concat w)))).
    - unfold Rdiv in Hv. rewrite Hv. ring.
    - apply Rinv_neq_0_compat. lra. }
  assert (Hall : Forall (fun x => 0 <= x)
                   (map (fun x => (x + - rmean w) * (x + - rmean w)) (concat w))).
  { apply Forall_map, Forall_forall. intros x _.
    apply Rle_0_sqr. }
  pose proof (rsum_nonneg_zero _ Hall Hs) as Hz.
  rewrite Forall_map, Forall_forall in Hz.
  specialize (Hz _ Hin). cbv beta in Hz.
  apply Rmult_integral in Hz. lra.
Qed.

(** The 25 x 25 window of an interior cell of a grid of finite elevations. *)
Lemma attribute_window_lift n m w center :
  rect n m w ->
  (12 <= fst center)%Z -> (fst center + 13 <= Z.of_nat n)%Z ->
  (12 <= snd center)%Z -> (snd center + 13 <= Z.of_nat m)%Z ->
  getitem2 (lift w)
           (Some (fst center - 12), Some (fst center + 13))%Z
           (Some (snd center - 12), Some (snd center + 13))%Z
  = lift (sub_grid w (Z.to_nat (fst center - 12)) (Z.to_nat (snd center - 12))
                   25 25).
Proof.
  intros H Hr1 Hr2 Hc1 Hc2.
  pose proof (rect_lift n m w H) as HL.
  change (getitem2 (lift w) _ _)
    with (getitem2 (lift w) (rows_around 12 center) (cols_around 12 center)).
  rewrite getitem2_truncated;
    rewrite ?(nrows_rect n m _ HL), ?(ncols_rect n m _ HL); try lia.
  unfold truncated_window. cbv zeta.
  rewrite (nrows_rect n m _ HL), (ncols_rect n m _ HL) by lia.
  change (12 + 1)%Z with 13%Z.
  replace (Nat.min (Z.to_nat (fst center + 13)) n - Z.to_nat (fst center - 12))%nat
    with 25%nat by lia.
  replace (Nat.min (Z.to_nat (snd center + 13)) m - Z.to_nat (snd center - 12))%nat
    with 25%nat by lia.
  unfold sub_grid. rewrite lift_table. apply build_ext. intros i j Hi Hj.
  apply (get_lift n m); [assumption|lia|lia].
Qed.

End AttributeProperties.


(** X14: on a grid of at least 25 x 25 the table kept after [dropna] holds
    only rows without a [nan] attribute, each the row of a cell of the
    collection, and none of them belongs to a cell whose centroid index is
    within 12 cells of the top or left edge of the grid: those cells are
    silently dropped. *)
Theorem attribute_table_drops_top_left_cells dem cells :
  (25 <= nrows dem)%nat -> (25 <= ncols dem)%nat ->
  exists rows,
    attribute_table dem cells = Ret rows /\
    forall r, In r rows ->
      (isna (mu_col r) = false /\ isna (xi_col r) = false /\
       isna (F_sky_col r) = false) /\
      (exists c_row, In c_row cells /\ Station r = Station c_row /\
                     array_coords r = array_coords c_row) /\
      ~ ((0 <= fst (array_coords r) < 12)%Z \/ (0 <= snd (array_coords r) < 12)%Z).
Proof.
  intros Hn Hm. unfold attribute_table. rewrite attribute_mode_value.
  cbn [bind]. eexists. split; [reflexivity|].
  intros r Hin. unfold dropna in Hin. apply filter_In in Hin.
  destruct Hin as [Hin Hkeep]. apply in_map_iff in Hin.
  destruct Hin as (c0 & Hr & Hc0).
  apply negb_true_iff in Hkeep.
  apply orb_false_iff in Hkeep. destruct Hkeep as [Hkeep HF].
  apply orb_false_iff in Hkeep. destruct Hkeep as [Hmu Hxi].
  split; [now repeat split|]. split.
  - exists c0. rewrite <- Hr, attribute_wrapper_value. now repeat split.
  - intros Hedge.
    assert (Hcoords : array_coords r = array_coords c0)
      by (rewrite <- Hr, attribute_wrapper_value; reflexivity).
    rewrite Hcoords in Hedge.
    rewrite (attribute_near_edge_no_data_row dem c0) in Hr
      by (destruct Hedge; [left|right]; lia).
    rewrite <- Hr in Hmu. cbn in Hmu. discriminate.
Qed.

Lemma attribute_table_drops_top_left_cells_witness :
  exists rows,
    attribute_table (lift ramp25) [cell_mid25; cell_in] = Ret rows /\
    forall r, In r rows ->
      (isna (mu_col r) = false /\ isna (xi_col r) = false /\
       isna (F_sky_col r) = false) /\
      (exists c_row, In c_row [cell_mid25; cell_in] /\
                     Station r = Station c_row /\
                     array_coords r = array_coords c_row) /\
      ~ ((0 <= fst (array_coords r) < 12)%Z \/ (0 <= snd (array_coords r) < 12)%Z).
Proof.
  pose proof (rect_lift 25 25 ramp25 (rect_table 25 25 _)) as HL.
  apply (attribute_table_drops_top_left_cells (lift ramp25) [cell_mid25; cell_in]).
  - rewrite (nrows_rect 25 25 _ HL). lia.
  - rewrite (ncols_rect 25 25 _ HL); lia.
Defined.

(** X15: on a grid of finite elevations that is not flat, a cell at least 12
    cells from every edge whose 25 x 25 window is flat gets the attribute
    row [mu = 0], [xi = +inf], [F_sky = 1]; [dropna] keeps this row, so the
    saved table holds an infinite width. *)
Theorem flat_window_row_has_infinite_width n m w c_row z :
  rect n m w ->
  (12 <= fst (array_coords c_row))%Z ->
  (fst (array_coords c_row) + 13 <= Z.of_nat n)%Z ->
  (12 <= snd (array_coords c_row))%Z ->
  (snd (array_coords c_row) + 13 <= Z.of_nat m)%Z ->
  (forall i j, (i < 25)%nat -> (j < 25)%nat ->
     rget w (Z.to_nat (fst (array_coords c_row) - 12) + i)
            (Z.to_nat (snd (array_coords c_row) - 12) + j) = z) ->
  0 < rvar w ->
  sky_view_factor_processing_wrapper (lift w) c_row
  = Ret (set_params c_row (Fin 0) PInf (Fin 1)) /\
  attribute_table (lift w) [c_row]
  = Ret [set_params c_row (Fin 0) PInf (Fin 1)].
Proof.
  intros H Hr1 Hr2 Hc1 Hc2 Hflat Hvar.
  pose proof sqrt2_pos as Hs.
  assert (W : sky_view_factor_processing_wrapper (lift w) c_row
              = Ret (set_params c_row (Fin 0) PInf (Fin 1))).
  { unfold sky_view_factor_processing_wrapper. cbv zeta.
    rewrite (attribute_window_lift n m w _ H Hr1 Hr2 Hc1 Hc2).
    unfold delta_x.
    rewrite (mean_squared_slope_uniform 25 25
               (sub_grid w (Z.to_nat (fst (array_coords c_row) - 12))
                         (Z.to_nat (snd (array_coords c_row) - 12)) 25 25)
               20 0 (rect_table 25 25 _));
      [|lia|lia|lra|].
    2:{ intros i j Hi Hj. unfold sub_grid.
        rewrite !rget_table_at by lia. rewrite !Hflat by lia. ring. }
    rewrite sqrt_0. replace (0 / (20 * sqrt 2)) with 0 by (unfold Rdiv; ring).
    cbn [bind]. unfold compute_typical_width.
    assert (Hlen : (0 < length (concat w))%nat).
    { destruct (concat w) eqn:E; [|cbn; lia].
      unfold rvar, rmean in Hvar. rewrite <- concat_map, E in Hvar.
      cbn in Hvar. unfold Rdiv in Hvar. rewrite Rmult_0_l in Hvar. lra. }
    rewrite (np_std_lift w Hlen). rewrite (fsqrt_nonneg 2) by lra.
    cbn [fmul]. assert (0 < sqrt (rvar w)) by now apply sqrt_lt_R0.
    rewrite fdiv_pos_zero by nra. cbn [bind].
    unfold L. rewrite sky_view_factor_zero_slope_inf by lra. reflexivity. }
  split; [exact W|].
  unfold attribute_table, attribute_mode. cbn [mapM]. rewrite W. reflexivity.
Qed.

Lemma rvar_step26_pos : 0 < rvar step26.
Proof.
  destruct (Rle_lt_or_eq_dec 0 (rvar step26) (rvar_nonneg step26)) as [Hlt|Heq];
    [assumption|].
  pose proof (rvar_zero_constant 25 26 step26 (rect_table 25 26 _)
                ltac:(lia) ltac:(lia) (eq_sym Heq)) as Hc.
  pose proof (Hc 0%nat 0%nat ltac:(lia) ltac:(lia)) as H0.
  pose proof (Hc 0%nat 25%nat ltac:(lia) ltac:(lia)) as H1.
  unfold step26 in H0 at 1. unfold step26 in H1 at 1.
  rewrite rget_table_at in H0, H1 by lia. cbn in H0, H1. lra.
Qed.

Lemma flat_window_row_has_infinite_width_witness :
  sky_view_factor_processing_wrapper (lift step26) cell_mid25
  = Ret (set_params cell_mid25 (Fin 0) PInf (Fin 1)) /\
  attribute_table (lift step26) [cell_mid25]
  = Ret [set_params cell_mid25 (Fin 0) PInf (Fin 1)].
Proof.
  apply (flat_window_row_has_infinite_width 25 26 step26 cell_mid25 0).
  - apply rect_table.
  - cbn. lia.
  - cbn. lia.
  - cbn. lia.
  - cbn. lia.
  - intros i j Hi Hj. unfold step26. rewrite rget_table_at by (cbn; lia).
    cbn [array_coords cell_mid25 fst snd].
    destruct (Nat.eqb_spec (Z.to_nat (12 - 12) + j) 25); [cbn in *; lia|reflexivity].
  - exact rvar_step26_pos.
Defined.



(** * Further properties of the elevation Laplacian *)

Section LaplacianProperties.

Lemma stencil_tilted p q r0 n m w w' i j :
  tilted p q r0 n m w w' -> (0 < i < n - 1)%nat -> (0 < j < m - 1)%nat ->
  stencil w' i j = stencil w i j.
Proof.
  intros Ht Hi Hj. unfold stencil.
  rewrite !(Ht _ _) by lia.
  rewrite !plus_INR, !minus_INR by lia. cbn [INR]. ring.
Qed.

End LaplacianProperties.

(** X17: adding a plane [p i + q j + r0] to a grid of finite elevations of at
    least 3 x 3 does not change the array [compute_elevation_laplacien]
    returns: the Laplacian sees neither a uniform offset nor a uniform
    tilt. *)
Theorem elevation_laplacien_ignores_planes p q r0 n m w w' dx :
  rect n m w -> rect n m w' -> (3 <= n)%nat -> (3 <= m)%nat -> 0 < dx ->
  tilted p q r0 n m w w' ->
  compute_elevation_laplacien (lift w') (Fin dx)
  = compute_elevation_laplacien (lift w) (Fin dx).
Proof.
  intros H H' Hn Hm Hdx Ht.
  rewrite (elevation_laplacien_value n m w dx H Hn Hm Hdx).
  rewrite (elevation_laplacien_value n m w' dx H' Hn Hm Hdx).
  f_equal. apply build_ext. intros i j Hi Hj.
  destruct (in_bounds (1%nat, (n - 1)%nat) i) eqn:Ei;
    [destruct (in_bounds (1%nat, (m - 1)%nat) j) eqn:Ej|]; cbn [andb];
    try reflexivity.
  apply in_bounds_iff in Ei, Ej. cbn [fst snd] in Ei, Ej.
  rewrite (stencil_tilted p q r0 n m w w' i j Ht) by lia. reflexivity.
Qed.

Lemma ramp3_tilted_is_tilted : tilted 20 2 7 3 3 [[0; 0; 0]; [0; 0; 0]; [0; 0; 0]]
                                      ramp3_tilted.
Proof.
  intros i j Hi Hj. unfold rget, ramp3_tilted.
  destruct i as [|[|[|i]]]; [| | |lia];
    (destruct j as [|[|[|j]]]; [| | |lia]); cbn; lra.
Qed.

Lemma elevation_laplacien_ignores_planes_witness :
  compute_elevation_laplacien (lift ramp3_tilted) (Fin 20)
  = compute_elevation_laplacien (lift [[0; 0; 0]; [0; 0; 0]; [0; 0; 0]]) (Fin 20).
Proof.
  apply (elevation_laplacien_ignores_planes 20 2 7 3 3
           [[0; 0; 0]; [0; 0; 0]; [0; 0; 0]] ramp3_tilted 20).
  - apply rect_3x3.
  - apply rect_3x3.
  - lia.
  - lia.
  - lra.
  - exact ramp3_tilted_is_tilted.
Defined.

(** X18: on a planar grid of finite elevations [p i + q j + r0] of at least
    3 x 3, every interior pixel of the array [compute_elevation_laplacien]
    returns is exactly 0, and the downscaling factor there is
    [c' / (1 + d' + mu^e')] for every slope [mu >= 0]. *)
Theorem elevation_laplacien_of_plane_is_zero p q r0 n m w dx mu :
  rect n m w -> (3 <= n)%nat -> (3 <= m)%nat -> 0 < dx ->
  plane_window p q r0 n m w -> 0 <= mu ->
  exists N : array,
    compute_elevation_laplacien (lift w) (Fin dx) = Ret N /\
    forall i j, (0 < i < n - 1)%nat -> (0 < j < m - 1)%nat ->
      get N i j = Fin 0 /\
      compute_downscaling_factor (get N i j) (Fin mu)
      = Ret (Fin (c_prime / (1 + d_prime + real_pow mu e_prime))).
Proof.
  intros H Hn Hm Hdx Hp Hmu. eexists.
  split; [apply (elevation_laplacien_value n m w dx H Hn Hm Hdx)|].
  intros i j Hi Hj. rewrite get_build by lia.
  rewrite !in_bounds_true by lia. cbn [andb].
  assert (Hst : stencil w i j = 0).
  { unfold stencil. rewrite !Hp by lia.
    rewrite !plus_INR, !minus_INR by lia. cbn [INR]. ring. }
  rewrite Hst.
  replace (0 / (dx * dx) * dx / 4) with 0 by (unfold Rdiv; ring).
  split; [reflexivity|].
  rewrite downscaling_factor_value by assumption. do 2 f_equal.
  unfold Rdiv. ring.
Qed.

Lemma ramp3_tilted_is_plane : plane_window 20 2 7 3 3 ramp3_tilted.
Proof.
  intros i j Hi Hj. unfold rget, ramp3_tilted.
  destruct i as [|[|[|i]]]; [| | |lia];
    (destruct j as [|[|[|j]]]; [| | |lia]); cbn; lra.
Qed.

Lemma elevation_laplacien_of_plane_is_zero_witness :
  exists N : array,
    compute_elevation_laplacien (lift ramp3_tilted) (Fin 20) = Ret N /\
    forall i j, (0 < i < 3 - 1)%nat -> (0 < j < 3 - 1)%nat ->
      get N i j = Fin 0 /\
      compute_downscaling_factor (get N i j) (Fin 1)
      = Ret (Fin (c_prime / (1 + d_prime + real_pow 1 e_prime))).
Proof.
  apply (elevation_laplacien_of_plane_is_zero 20 2 7 3 3 ramp3_tilted 20 1).
  - apply rect_3x3.
  - lia.
  - lia.
  - lra.
  - exact ramp3_tilted_is_plane.
  - lra.
Defined.

(** * Properties of the SMET header *)

Module SmetFacts.

Import Stdlib.Strings.String Stdlib.Strings.Ascii.
Import Smet.
Local Open Scope string_scope.

Lemma replace_from_absent old new s :
  occurs old s = false -> replace_from old new 0 s = s.
Proof.
  induction s as [|ch s IH]; intros H; [reflexivity|].
  cbn [occurs] in H. apply orb_false_iff in H. destruct H as [Hp Hrest].
  cbn [replace_from]. rewrite Hp. now rewrite IH.
Qed.

Lemma replace_absent old new s :
  old <> EmptyString -> occurs old s = false -> replace old new s = s.
Proof.
  intros Hne H. unfold replace. destruct old as [|ch old]; [congruence|].
  now apply replace_from_absent.
Qed.

Lemma getitem_nth {A : Type} (l : list A) k a :
  nth_error l k = Some a -> getitem l (Z.of_nat k) = Ok a.
Proof.
  intros H. unfold getitem.
  assert (Hk : (Z.of_nat k <? 0)%Z = false) by (apply Z.ltb_ge; lia).
  rewrite !Hk, Nat2Z.id, H. reflexivity.
Qed.

Lemma setitem_in_range {A : Type} (l : list A) k v :
  (k < List.length l)%nat -> setitem l (Z.of_nat k) v = Ok (set_nth l k v).
Proof.
  intros H. unfold setitem.
  assert (Hk : (Z.of_nat k <? 0)%Z = false) by (apply Z.ltb_ge; lia).
  assert (Hl : (Z.of_nat (List.length l) <=? Z.of_nat k)%Z = false)
    by (apply Z.leb_gt; lia).
  rewrite !Hk, Hl, Nat2Z.id. reflexivity.
Qed.

Lemma insert_at {A : Type} (l : list A) k x :
  (k <= List.length l)%nat ->
  insert l (Z.of_nat k) x = (firstn k l ++ x :: skipn k l)%list.
Proof.
  intros H. unfold insert. rewrite norm_index_pos by lia.
  rewrite Nat2Z.id. now replace (Nat.min k (List.length l)) with k by lia.
Qed.

Lemma slice1_in_range {A : Type} (l : list A) i j :
  (i <= j)%nat -> (j <= List.length l)%nat ->
  slice1 l (Some (Z.of_nat i), Some (Z.of_nat j))
  = firstn (j - i) (skipn i l).
Proof.
  intros Hij Hj. unfold slice1, bounds. cbn [fst snd].
  rewrite !norm_index_pos by lia. rewrite !Nat2Z.id.
  replace (Nat.min i (List.length l)) with i by lia.
  now replace (Nat.min j (List.length l)) with j by lia.
Qed.

Lemma slice1_prefix {A : Type} (l : list A) j :
  (j <= List.length l)%nat -> slice1 l (None, Some (Z.of_nat j)) = firstn j l.
Proof.
  intros Hj. unfold slice1, bounds. cbn [fst snd].
  rewrite norm_index_pos by lia. rewrite Nat2Z.id.
  replace (Nat.min j (List.length l)) with j by lia.
  now rewrite Nat.sub_0_r.
Qed.

(** X19: when the station number is read from the path, [format_header]
    raises [IndexError] on a file of fewer than 6 lines; when the station is
    also found in the centroid tables, it raises [IndexError] on every file
    of fewer than 17 lines (the header it assembles has no line 12). *)
Theorem format_header_short_file data st centroid columns :
  (List.length data < 17)%nat ->
  ((List.length data < 6)%nat ->
   format_header data (Ok st) centroid columns = Raise IndexError) /\
  (forall cs, centroid st = Ok cs ->
   format_header data (Ok st) centroid columns = Raise IndexError).
Proof.
  intros Hlen. split.
  - intros H6.
    do 6 (destruct data as [|? data]; [reflexivity|]).
    cbn in H6. lia.
  - intros [[[lat lon] x] y] Hc.
    do 17 (destruct data as [|? data];
           [unfold format_header; cbn [obind getitem]; cbn;
            rewrite ?Hc; reflexivity|]).
    cbn in Hlen. lia.
Qed.

Lemma format_header_short_file_witness :
  ((List.length ["a"; "b"; "c"] < 6)%nat ->
   format_header ["a"; "b"; "c"] (Ok 12%Z)
                 (fun _ => Ok ("1", "2", "3", "4")) ["TA"]
   = Raise IndexError) /\
  (forall cs, (fun _ : Z => Ok ("1", "2", "3", "4")) 12%Z = Ok cs ->
   format_header ["a"; "b"; "c"] (Ok 12%Z)
                 (fun _ => Ok ("1", "2", "3", "4")) ["TA"]
   = Raise IndexError).
Proof.
  apply (format_header_short_file ["a"; "b"; "c"] 12%Z
           (fun _ => Ok ("1", "2", "3", "4")) ["TA"]).
  cbn. lia.
Defined.

Lemma format_header_value
    d0 d1 d2 d3 d4 d5 d6 d7 d8 d9 d10 d11 d12 d13 d14 d15 d16 d17 rest
    st centroid lat lon x y columns :
  centroid st = Ok (lat, lon, x, y) ->
  format_header
    (d0 :: d1 :: d2 :: d3 :: d4 :: d5 :: d6 :: d7 :: d8 :: d9 :: d10 :: d11
        :: d12 :: d13 :: d14 :: d15 :: d16 :: d17 :: rest)
    (Ok st) centroid columns
  = Ok [d0; d1; d2; d3;
        replace "-999.000000" lat d4;
        replace "-999.000000" lon d5;
        d6;
        replace "-999.000000" x (replace "latitude" "easting" d4);
        replace "-999.000000" y (replace "latitude" "northing" d4);
        epsg_line;
        d7; d8;
        before_first "="%char d16 ++ "= timestamp" ++ tab ++ join tab columns
          ++ newline;
        d17].
Proof.
  intros Hc. unfold format_header. cbn [obind].
  change 4%Z with (Z.of_nat 4). change 5%Z with (Z.of_nat 5).
  change 7%Z with (Z.of_nat 7). change 8%Z with (Z.of_nat 8).
  change 9%Z with (Z.of_nat 9). change 12%Z with (Z.of_nat 12).
  change 19%Z with (Z.of_nat 19). change 21%Z with (Z.of_nat 21).
  erewrite (getitem_nth _ 4) by reflexivity. cbn [obind].
  erewrite (getitem_nth _ 5) by reflexivity. cbn [obind].
  rewrite Hc. cbn [obind].
  rewrite setitem_in_range by (cbn [List.length]; lia).
  cbn [obind set_nth].
  erewrite (getitem_nth _ 5) by reflexivity. cbn [obind].
  rewrite setitem_in_range by (cbn [List.length]; lia).
  cbn [obind set_nth].
  rewrite (insert_at _ 7) by (cbn [List.length]; lia).
  cbn [firstn skipn app].
  rewrite (insert_at _ 8) by (cbn [List.length]; lia).
  cbn [firstn skipn app].
  rewrite (insert_at _ 9) by (cbn [List.length]; lia).
  cbn [firstn skipn app].
  rewrite slice1_prefix by (cbn [List.length]; lia).
  rewrite slice1_in_range by (cbn [List.length]; lia).
  cbn [firstn skipn app Nat.sub].
  erewrite (getitem_nth _ 12) by reflexivity. cbn [obind].
  rewrite setitem_in_range by (cbn [List.length]; lia).
  reflexivity.
Qed.

(** X20: on a file of at least 18 lines, with the station read from the
    path and found in the centroid tables, [format_header] returns exactly 14
    lines: lines 0 to 3 and 6 of the file unchanged, lines 4 and 5 with the
    placeholder replaced by the latitude and the longitude, two new lines
    both made from line 4 of the file (the easting and the northing), the
    EPSG line, lines 7 and 8 of the file, the fields line rebuilt from the
    part of line 16 before its first [=], and line 17. Lines 9 to 15 of the
    file and everything after line 17 are left out. *)
Theorem format_header_lines
    d0 d1 d2 d3 d4 d5 d6 d7 d8 d9 d10 d11 d12 d13 d14 d15 d16 d17 rest
    st centroid lat lon x y columns :
  centroid st = Ok (lat, lon, x, y) ->
  format_header
    (d0 :: d1 :: d2 :: d3 :: d4 :: d5 :: d6 :: d7 :: d8 :: d9 :: d10 :: d11
        :: d12 :: d13 :: d14 :: d15 :: d16 :: d17 :: rest)
    (Ok st) centroid columns
  = Ok [d0; d1; d2; d3;
        replace "-999.000000" lat d4;
        replace "-999.000000" lon d5;
        d6;
        replace "-999.000000" x (replace "latitude" "easting" d4);
        replace "-999.000000" y (replace "latitude" "northing" d4);
        epsg_line;
        d7; d8;
        before_first "="%char d16 ++ "= timestamp" ++ tab ++ join tab columns
          ++ newline;
        d17].
Proof. apply format_header_value. Qed.

Lemma format_header_lines_witness :
  format_header
    ("l0" :: "l1" :: "l2" :: "l3" :: "latitude = -999.000000"
        :: "longitude = -999.000000" :: "l6" :: "l7" :: "l8" :: "l9" :: "l10"
        :: "l11" :: "l12" :: "l13" :: "l14" :: "l15" :: "fields = a b"
        :: "[DATA]" :: ["2020 1 2"])
    (Ok 12%Z) (fun _ => Ok ("50.1", "-120.2", "500.0", "5500.0")) ["TA"; "RH"]
  = Ok ["l0"; "l1"; "l2"; "l3";
        replace "-999.000000" "50.1" "latitude = -999.000000";
        replace "-999.000000" "-120.2" "longitude = -999.000000";
        "l6";
        replace "-999.000000" "500.0"
                (replace "latitude" "easting" "latitude = -999.000000");
        replace "-999.000000" "5500.0"
                (replace "latitude" "northing" "latitude = -999.000000");
        epsg_line;
        "l7"; "l8";
        before_first "="%char "fields = a b" ++ "= timestamp" ++ tab
          ++ join tab ["TA"; "RH"] ++ newline;
        "[DATA]"].
Proof.
  apply (format_header_lines "l0" "l1" "l2" "l3" "latitude = -999.000000"
           "longitude = -999.000000" "l6" "l7" "l8" "l9" "l10" "l11" "l12"
           "l13" "l14" "l15" "fields = a b" "[DATA]" ["2020 1 2"] 12%Z
           (fun _ => Ok ("50.1", "-120.2", "500.0", "5500.0"))
           "50.1" "-120.2" "500.0" "5500.0" ["TA"; "RH"]).
  reflexivity.
Defined.

(** The model of [replace] on the lines of the witness. *)
Example replace_placeholder :
  replace "-999.000000" "500.0"
          (replace "latitude" "easting" "latitude = -999.000000")
  = "easting = 500.0".
Proof. reflexivity. Qed.

(** X21: [format_header] checks nothing about the lines it rewrites. When
    line 4 of the file holds neither the word [latitude] nor the placeholder
    [-999.000000], line 4 is returned unchanged and the easting and northing
    lines of the returned header (lines 7 and 8) are two more copies of it;
    when line 5 holds no placeholder it is returned unchanged. *)
Theorem format_header_without_placeholder
    d0 d1 d2 d3 d4 d5 d6 d7 d8 d9 d10 d11 d12 d13 d14 d15 d16 d17 rest
    st centroid cs columns :
  centroid st = Ok cs ->
  occurs "latitude" d4 = false -> occurs "-999.000000" d4 = false ->
  occurs "-999.000000" d5 = false ->
  exists fields,
    format_header
      (d0 :: d1 :: d2 :: d3 :: d4 :: d5 :: d6 :: d7 :: d8 :: d9 :: d10 :: d11
          :: d12 :: d13 :: d14 :: d15 :: d16 :: d17 :: rest)
      (Ok st) centroid columns
    = Ok [d0; d1; d2; d3; d4; d5; d6; d4; d4; epsg_line; d7; d8; fields; d17].
Proof.
  intros Hc Hlat H4 H5. destruct cs as [[[lat lon] x] y].
  eexists.
  rewrite (format_header_value d0 d1 d2 d3 d4 d5 d6 d7 d8 d9 d10 d11 d12 d13
             d14 d15 d16 d17 rest st centroid lat lon x y columns Hc).
  rewrite !(replace_absent "latitude") by (discriminate || assumption).
  rewrite !(replace_absent "-999.000000") by (discriminate || assumption).
  reflexivity.
Qed.

Lemma format_header_without_placeholder_witness :
  exists fields,
    format_header
      ("l0" :: "l1" :: "l2" :: "l3" :: "lat = 50.0" :: "lon = -120.0" :: "l6"
          :: "l7" :: "l8" :: "l9" :: "l10" :: "l11" :: "l12" :: "l13" :: "l14"
          :: "l15" :: "fields = a b" :: "[DATA]" :: ["2020 1 2"])
      (Ok 12%Z) (fun _ => Ok ("50.1", "-120.2", "500.0", "5500.0")) ["TA"; "RH"]
    = Ok ["l0"; "l1"; "l2"; "l3"; "lat = 50.0"; "lon = -120.0"; "l6";
          "lat = 50.0"; "lat = 50.0"; epsg_line; "l7"; "l8"; fields; "[DATA]"].
Proof.
  apply (format_header_without_placeholder "l0" "l1" "l2" "l3" "lat = 50.0"
           "lon = -120.0" "l6" "l7" "l8" "l9" "l10" "l11" "l12" "l13" "l14"
           "l15" "fields = a b" "[DATA]" ["2020 1 2"] 12%Z
           (fun _ => Ok ("50.1", "-120.2", "500.0", "5500.0"))
           ("50.1", "-120.2", "500.0", "5500.0") ["TA"; "RH"]);
    reflexivity.
Defined.

End SmetFacts.
